(** * Semantic cache and multi-hop orchestration of mcp_duckduckgo

    A shallow embedding of
    - [mcp_duckduckgo/semantic_cache.py] (key construction, TTL by intent,
      the [OrderedDict] store with LRU eviction),
    - [mcp_duckduckgo/search.py] (the cache glue of [duckduckgo_search] and
      [_merge_results]),
    - [mcp_duckduckgo/orchestration/flow.py] ([MultiHopPlan] and
      [MultiHopOrchestrator]).

    Timestamps are modelled as exact rationals ([Q]); [time.time()] is an
    explicit clock reading passed to the operations that read it. *)

From Stdlib Require Import String Ascii ZArith QArith Lia Bool List.
From Stdlib Require Import Permutation DecimalString DecimalPos DecimalZ.
Import ListNotations.
Set Warnings "-register-all".
Open Scope string_scope.

(* ------------------------------------------------------------------ *)
(** ** Python-level helpers *)

(** [str(n)] for a Python [int]: decimal digits, a leading ["-"] for
    negative numbers, ["0"] for zero. *)
Definition py_str_int (z : Z) : string :=
  NilZero.string_of_int (Z.to_int z).

(** [sep.join(parts)] *)
Fixpoint py_join (sep : string) (parts : list string) : string :=
  match parts with
  | [] => ""
  | [p] => p
  | p :: ps => p ++ sep ++ py_join sep ps
  end.

(** [x or default] for an optional string: [None] and [""] are falsy. *)
Definition py_or_str (o : option string) (default : string) : string :=
  match o with
  | Some s => if String.eqb s "" then default else s
  | None => default
  end.

(** [x or 0] for an optional int: [None] and [0] are falsy. *)
Definition py_or_int (o : option Z) : Z :=
  match o with
  | Some z => if Z.eqb z 0 then 0 else z
  | None => 0
  end.

(* ------------------------------------------------------------------ *)
(** ** [models.SearchIntent] *)

Inductive SearchIntent :=
  | News | Technical | Shopping | Academic | Finance | Local | General.

Definition intent_str (i : SearchIntent) : string :=
  match i with
  | News => "news" | Technical => "technical" | Shopping => "shopping"
  | Academic => "academic" | Finance => "finance" | Local => "local"
  | General => "general"
  end.

(** [INTENT_TTL_SECONDS] *)
Definition INTENT_TTL_SECONDS (i : SearchIntent) : Z :=
  match i with
  | News => 15 * 60
  | Technical => 24 * 60 * 60
  | Shopping => 6 * 60 * 60
  | Academic => 36 * 60 * 60
  | Finance => 3 * 60 * 60
  | Local => 2 * 60 * 60
  | General => 6 * 60 * 60
  end.

(** [SemanticCache._intent_ttl]: the table is total on [SearchIntent], so
    the [.get(intent, INTENT_TTL_SECONDS["general"])] default is never
    taken. *)
Definition _intent_ttl (i : SearchIntent) : Z := INTENT_TTL_SECONDS i.

(* ------------------------------------------------------------------ *)
(** ** [SemanticCache.make_key] *)

Record KeyArgs := {
  ka_intent : SearchIntent;
  ka_embedding_signature : string;
  ka_count : Z;
  ka_offset : Z;
  ka_page : Z;
  ka_site : option string;
  ka_time_period : option string;
  ka_related : bool;
  ka_related_count : option Z
}.

Definition make_key_parts (a : KeyArgs) : list string :=
  [ intent_str (ka_intent a);
    ka_embedding_signature a;
    py_str_int (ka_count a);
    py_str_int (ka_offset a);
    py_str_int (ka_page a);
    py_or_str (ka_site a) "*";
    py_or_str (ka_time_period a) "*";
    (if ka_related a then "related" else "plain");
    py_str_int (py_or_int (ka_related_count a)) ].

Definition make_key (a : KeyArgs) : string :=
  py_join "|" (make_key_parts a).

(** [str.split("|")], used to read a key back into its parts. *)
Fixpoint py_split_bar (s : string) : list string :=
  match s with
  | EmptyString => [""]
  | String c s' =>
      let r := py_split_bar s' in
      if Ascii.eqb c "|" then "" :: r
      else match r with
           | x :: r' => String c x :: r'
           | [] => [String c ""]
           end
  end.

(** ["|" in s] *)
Fixpoint has_bar (s : string) : bool :=
  match s with
  | EmptyString => false
  | String c s' => Ascii.eqb c "|" || has_bar s'
  end.

Definition opt_has_bar (o : option string) : bool :=
  match o with Some s => has_bar s | None => false end.

(** The free-text fields of a key tuple contain no separator. *)
Definition key_args_ok (a : KeyArgs) : bool :=
  negb (has_bar (ka_embedding_signature a))
  && negb (opt_has_bar (ka_site a))
  && negb (opt_has_bar (ka_time_period a)).

(** The tuple a key actually records: the falsy values [None] and [""] of
    [site]/[time_period] collapse to ["*"], [None] and [0] of
    [related_count] collapse to [0]. *)
Definition key_norm (a : KeyArgs) :=
  (ka_intent a, ka_embedding_signature a, ka_count a, ka_offset a, ka_page a,
   py_or_str (ka_site a) "*", py_or_str (ka_time_period a) "*",
   ka_related a, py_or_int (ka_related_count a)).

(* ------------------------------------------------------------------ *)
(** ** [collections.OrderedDict] as an association list in insertion order *)

Section OrderedDict.
Context {V : Type}.

Definition OD := list (string * V).

Definition od_keys (s : OD) : list string := map fst s.

(** [key in d] *)
Definition od_contains (k : string) (s : OD) : bool :=
  existsb (fun p => String.eqb (fst p) k) s.

(** [d.get(k)] *)
Fixpoint od_get (k : string) (s : OD) : option V :=
  match s with
  | [] => None
  | (k', v) :: s' => if String.eqb k' k then Some v else od_get k s'
  end.

(** [d.pop(k, None)] *)
Definition od_delete (k : string) (s : OD) : OD :=
  filter (fun p => negb (String.eqb (fst p) k)) s.

(** [d.move_to_end(k)]; both call sites below only move a key that is
    present, so the [KeyError] branch of the library is never reached. *)
Definition od_move_to_end (k : string) (s : OD) : OD :=
  match od_get k s with
  | Some v => (od_delete k s ++ [(k, v)])%list
  | None => s
  end.

(** [d[k] = v]: an existing key keeps its position, a new key goes last. *)
Definition od_setitem (k : string) (v : V) (s : OD) : OD :=
  if od_contains k s
  then map (fun p => if String.eqb (fst p) k then (k, v) else p) s
  else (s ++ [(k, v)])%list.

End OrderedDict.

(* ------------------------------------------------------------------ *)
(** ** [CacheEntry], [CacheLookup], [SemanticCache] *)

Record CacheEntry (P : Type) := {
  ce_key : string;
  ce_intent : SearchIntent;
  ce_embedding_signature : string;
  ce_payload : P;
  ce_created_at : Q
}.
Arguments ce_key {P}. Arguments ce_intent {P}.
Arguments ce_embedding_signature {P}. Arguments ce_payload {P}.
Arguments ce_created_at {P}.

(** [CacheEntry.age_seconds], at clock reading [now]. *)
Definition age_seconds {P} (e : CacheEntry P) (now : Q) : Q :=
  now - ce_created_at e.

Record CacheLookup (P : Type) := {
  cl_payload : P;
  cl_age_seconds : Q;
  cl_fresh : bool
}.
Arguments cl_payload {P}. Arguments cl_age_seconds {P}. Arguments cl_fresh {P}.

Record SemanticCache (P : Type) := {
  sc_store : @OD (CacheEntry P);
  sc_max_entries : Z
}.
Arguments sc_store {P}. Arguments sc_max_entries {P}.

Definition with_store {P} (c : SemanticCache P) (s : @OD (CacheEntry P)) :=
  {| sc_store := s; sc_max_entries := sc_max_entries c |}.

(** [SemanticCache()] *)
Definition new_cache {P} (max_entries : Z) : SemanticCache P :=
  {| sc_store := []; sc_max_entries := max_entries |}.

(** [SemanticCache.get].  [entry.age_seconds] reads the clock each time it
    is evaluated: [now1] is the reading used for [fresh], [now2] the later
    one stored in the lookup.  Payloads are values, so [copy.deepcopy] is
    the identity. *)
Definition get {P} (c : SemanticCache P) (key : string) (intent : SearchIntent)
    (now1 now2 : Q) : option (CacheLookup P) * SemanticCache P :=
  match od_get key (sc_store c) with
  | None => (None, c)
  | Some entry =>
      let ttl := _intent_ttl intent in
      let fresh := Qle_bool (age_seconds entry now1) (inject_Z ttl) in
      let c' := if fresh then with_store c (od_move_to_end key (sc_store c))
                else c in
      (Some {| cl_payload := ce_payload entry;
               cl_age_seconds := age_seconds entry now2;
               cl_fresh := fresh |}, c')
  end.

(** [SemanticCache._evict_if_needed]: [popitem(last=False)] while the store
    is larger than [max_entries]; [None] is the [KeyError] of [popitem] on
    an empty store, reached only when [max_entries < 0]. *)
Fixpoint evict_loop {V} (max_entries : Z) (s : @OD V) : option (@OD V) :=
  if Z.leb (Z.of_nat (length s)) max_entries then Some s
  else match s with
       | [] => None
       | _ :: s' => evict_loop max_entries s'
       end.

Definition _evict_if_needed {P} (c : SemanticCache P) : option (SemanticCache P) :=
  match evict_loop (sc_max_entries c) (sc_store c) with
  | Some s => Some (with_store c s)
  | None => None
  end.

(** [SemanticCache.set], at clock reading [now]; [None] when
    [_evict_if_needed] raises. *)
Definition set {P} (c : SemanticCache P) (key : string) (intent : SearchIntent)
    (embedding_signature : string) (payload : P) (now : Q)
    : option (SemanticCache P) :=
  let store1 := if od_contains key (sc_store c)
                then od_move_to_end key (sc_store c) else sc_store c in
  let entry := {| ce_key := key; ce_intent := intent;
                  ce_embedding_signature := embedding_signature;
                  ce_payload := payload; ce_created_at := now |} in
  _evict_if_needed (with_store c (od_setitem key entry store1)).

(** A sequence of [set] calls, one per [(key, intent, signature, payload,
    clock)] item. *)
Fixpoint set_all {P} (c : SemanticCache P)
    (items : list (string * SearchIntent * string * P * Q))
    : option (SemanticCache P) :=
  match items with
  | [] => Some c
  | (k, i, sig, p, now) :: rest =>
      match set c k i sig p now with
      | Some c' => set_all c' rest
      | None => None
      end
  end.

Definition item_key {P} (it : string * SearchIntent * string * P * Q) : string :=
  let '(k, _, _, _, _) := it in k.

(** Keys in recency order, least recently used first. *)
Definition cache_keys {P} (c : SemanticCache P) : list string :=
  od_keys (sc_store c).

(** The last [n] elements of a list. *)
Definition lastn {A} (n : nat) (l : list A) : list A :=
  skipn (length l - n) l.

(** [l] without the occurrences of [k]. *)
Definition remove_key (k : string) (l : list string) : list string :=
  filter (fun x => negb (String.eqb x k)) l.

(** [l] without the elements of [ks]. *)
Definition remove_all (ks l : list string) : list string :=
  filter (fun x => negb (existsb (String.eqb x) ks)) l.

(** The entry [set] stores. *)
Definition new_entry {P} (key : string) (intent : SearchIntent) (sig : string)
    (payload : P) (now : Q) : CacheEntry P :=
  {| ce_key := key; ce_intent := intent; ce_embedding_signature := sig;
     ce_payload := payload; ce_created_at := now |}.

(* ------------------------------------------------------------------ *)
(** ** [search.py]: [_merge_results] and the cache glue of [duckduckgo_search] *)

(** A search result record.  [sr_url] is [result.get("url")], with the
    empty string standing for every falsy value (missing key, [None], ""). *)
Record SearchResult := {
  sr_url : string;
  sr_title : string;
  sr_snippet : string
}.

(** [if not url: continue] *)
Definition url_truthy (r : SearchResult) : bool := negb (String.eqb (sr_url r) "").

(** The loop of [_merge_results] over [primary + secondary], with the set
    [seen] and the list [merged] it builds. *)
Fixpoint merge_loop (rs : list SearchResult) (seen : list string)
    (merged : list SearchResult) : list SearchResult :=
  match rs with
  | [] => merged
  | result :: rs' =>
      let url := sr_url result in
      if String.eqb url "" then merge_loop rs' seen merged
      else if existsb (String.eqb url) seen then merge_loop rs' seen merged
      else merge_loop rs' (url :: seen) (merged ++ [result])%list
  end.

(** [_merge_results] *)
Definition _merge_results (primary secondary : list SearchResult) : list SearchResult :=
  merge_loop (primary ++ secondary)%list [] [].

(** Keep the first record of each URL, in order. *)
Fixpoint dedup_by_url_from (seen : list string) (rs : list SearchResult)
    : list SearchResult :=
  match rs with
  | [] => []
  | r :: rs' =>
      if existsb (String.eqb (sr_url r)) seen then dedup_by_url_from seen rs'
      else r :: dedup_by_url_from (sr_url r :: seen) rs'
  end.

Definition dedup_by_url (rs : list SearchResult) : list SearchResult :=
  dedup_by_url_from [] rs.

(** The merge policy in the words of the specification: the fresh results
    followed by the cached ones, deduplicated by URL, first occurrence kept. *)
Definition spec_merge (fresh cached : list SearchResult) : list SearchResult :=
  dedup_by_url (fresh ++ cached)%list.

(** [payload["cache_metadata"]] *)
Record CacheMetadata := {
  cm_status : string;
  cm_age_seconds : Q
}.

(** The payload dictionary of [duckduckgo_search]; [None] is an absent key. *)
Record Payload := {
  p_results : list SearchResult;
  p_total_results : Z;
  p_intent : SearchIntent;
  p_related_searches : option (list string);
  p_cache_metadata : option CacheMetadata
}.

(** [round(x, 2)] on an exact rational: the nearest multiple of [1/100],
    ties to even. *)
Definition round2 (x : Q) : Q :=
  let y := x * (100 # 1) in
  let f := Z.div (Qnum y) (Zpos (Qden y)) in
  let n := match Qcompare (y - inject_Z f) (1 # 2) with
           | Lt => f
           | Gt => (f + 1)%Z
           | Eq => if Z.even f then f else (f + 1)%Z
           end in
  Qmake n 100.

(** What the fetch, parse and rerank steps of [duckduckgo_search] (outside
    this model) produce: the reranked fresh [results], [estimated_total]
    and the deduplicated related queries of the page; or the message of
    the [DuckDuckGoSearchError] raised when the request fails. *)
Inductive FetchOutcome :=
  | Fetched (reranked : list SearchResult) (estimated_total : Z) (related : list string)
  | FetchFailed (msg : string).

Inductive SearchOutcome :=
  | Returned (payload : Payload)
  | Raised (msg : string).

(** One call of [duckduckgo_search]: its outcome, the cache afterwards,
    and whether the external fetch was performed. *)
Record SearchRun := {
  run_outcome : SearchOutcome;
  run_cache : SemanticCache Payload;
  run_fetched : bool
}.

(** The miss/stale path of [duckduckgo_search]: fetch, merge with the
    stale payload if any, annotate, [semantic_cache.set], return.
    [set] fails only when [max_entries < 0]. *)
Definition fetch_and_store (c1 : SemanticCache Payload) (cache_key : string)
    (intent : SearchIntent) (embedding_signature : string) (get_related : bool)
    (cached : option (CacheLookup Payload)) (now3 : Q) (fetch : FetchOutcome)
    : SearchRun :=
  match fetch with
  | FetchFailed msg => {| run_outcome := Raised msg; run_cache := c1; run_fetched := true |}
  | Fetched reranked estimated_total deduped =>
      let payload_results :=
        match cached with
        | Some l => match p_results (cl_payload l) with
                    | [] => reranked
                    | _ :: _ => _merge_results reranked (p_results (cl_payload l))
                    end
        | None => reranked
        end in
      let related :=
        if get_related then
          Some (match deduped, cached with
                | [], Some l => match p_related_searches (cl_payload l) with
                                | Some r => r
                                | None => []
                                end
                | _, _ => deduped
                end)
        else None in
      let meta :=
        match cached with
        | Some l => {| cm_status := "refresh"; cm_age_seconds := round2 (cl_age_seconds l) |}
        | None => {| cm_status := "miss"; cm_age_seconds := 0 |}
        end in
      let payload := {| p_results := payload_results; p_total_results := estimated_total;
                        p_intent := intent; p_related_searches := related;
                        p_cache_metadata := Some meta |} in
      match set c1 cache_key intent embedding_signature payload now3 with
      | Some c2 => {| run_outcome := Returned payload; run_cache := c2; run_fetched := true |}
      | None => {| run_outcome := Raised "popitem(): dictionary is empty";
                   run_cache := c1; run_fetched := true |}
      end
  end.

(** The cache part of [duckduckgo_search] for the key arguments [a]
    ([get_related] is [ka_related a]); [now1], [now2] are the clock
    readings of [semantic_cache.get], [now3] that of [semantic_cache.set]. *)
Definition duckduckgo_search_cached (c : SemanticCache Payload) (a : KeyArgs)
    (now1 now2 now3 : Q) (fetch : FetchOutcome) : SearchRun :=
  let intent := ka_intent a in
  let embedding_signature := ka_embedding_signature a in
  let cache_key := make_key a in
  let '(cache_lookup, c1) := get c cache_key intent now1 now2 in
  match cache_lookup with
  | Some l =>
      if cl_fresh l then
        let cached_result := cl_payload l in
        {| run_outcome := Returned
             {| p_results := p_results cached_result;
                p_total_results := p_total_results cached_result;
                p_intent := intent;
                p_related_searches := p_related_searches cached_result;
                p_cache_metadata :=
                  Some {| cm_status := "hit"; cm_age_seconds := round2 (cl_age_seconds l) |} |};
           run_cache := c1; run_fetched := false |}
      else fetch_and_store c1 cache_key intent embedding_signature (ka_related a)
             (Some l) now3 fetch
  | None => fetch_and_store c1 cache_key intent embedding_signature (ka_related a)
              None now3 fetch
  end.

(* ------------------------------------------------------------------ *)
(** ** Python text helpers: [str.lower], [str.isspace], [str.strip], [in] *)

(** A [string] is read as a sequence of code points below 256 (Latin-1).
    [str.lower()] on such a code point: [A]-[Z] and the Latin-1 capitals
    U+00C0-U+00D6, U+00D8-U+00DE move up by 32, everything else is kept. *)
Definition py_lower_char (c : ascii) : ascii :=
  let n := nat_of_ascii c in
  if (Nat.leb 65 n && Nat.leb n 90) || (Nat.leb 192 n && Nat.leb n 214)
     || (Nat.leb 216 n && Nat.leb n 222)
  then ascii_of_nat (n + 32) else c.

(** [s.lower()] *)
Fixpoint py_lower (s : string) : string :=
  match s with
  | EmptyString => EmptyString
  | String c s' => String (py_lower_char c) (py_lower s')
  end.

(** [str.isspace()] on one code point (the separators of [str.split()]
    and [str.strip()]). *)
Definition py_isspace (c : Z) : bool :=
  ((9 <=? c) && (c <=? 13))%Z || ((28 <=? c) && (c <=? 32))%Z || (c =? 133)%Z
  || (c =? 160)%Z || (c =? 5760)%Z || ((8192 <=? c) && (c <=? 8202))%Z
  || (c =? 8232)%Z || (c =? 8233)%Z || (c =? 8239)%Z || (c =? 8287)%Z
  || (c =? 12288)%Z.

Definition py_isspace_char (c : ascii) : bool := py_isspace (Z.of_nat (nat_of_ascii c)).

(** Drop leading whitespace. *)
Fixpoint lstrip_chars (l : list ascii) : list ascii :=
  match l with
  | c :: l' => if py_isspace_char c then lstrip_chars l' else l
  | [] => []
  end.

(** [s.strip()] *)
Definition py_strip (s : string) : string :=
  string_of_list_ascii (rev (lstrip_chars (rev (lstrip_chars (list_ascii_of_string s))))).

(** [needle in hay] *)
Fixpoint py_in (needle hay : string) : bool :=
  String.prefix needle hay ||
  match hay with
  | EmptyString => false
  | String _ hay' => py_in needle hay'
  end.

(* ------------------------------------------------------------------ *)
(** ** [SemanticCache.mark_domain_stale] *)

Section MarkDomainStale.
Context {P : Type}.

(** For a stored payload, [(result.get("domain") or "")] for each
    [result] of [payload.get("results", [])], in order. *)
Variable payload_domains : P -> list string.

(** The inner [for result in results] loop: whether it reaches [break]. *)
Definition entry_has_domain (lowered : string) (entry : CacheEntry P) : bool :=
  existsb (fun candidate => py_in lowered (py_lower candidate))
          (payload_domains (ce_payload entry)).

(** [keys_to_remove], collected over [self._store.items()] in order. *)
Fixpoint stale_keys (lowered : string) (s : @OD (CacheEntry P)) : list string :=
  match s with
  | [] => []
  | (key, entry) :: s' =>
      if entry_has_domain lowered entry then key :: stale_keys lowered s'
      else stale_keys lowered s'
  end.

(** [mark_domain_stale(domain)]: collect the keys, then
    [self._store.pop(key, None)] for each. *)
Definition mark_domain_stale (c : SemanticCache P) (domain : string) : SemanticCache P :=
  let lowered := py_lower domain in
  let keys_to_remove := stale_keys lowered (sc_store c) in
  with_store c (fold_left (fun s key => od_delete key s) keys_to_remove (sc_store c)).

End MarkDomainStale.

(* ------------------------------------------------------------------ *)
(** ** [search._summarize_html], on a text given as its code points *)

(** [s.split()]: the maximal runs of non-whitespace code points; [cur] is
    the run being read. *)
Fixpoint split_ws_from (cur : list Z) (s : list Z) : list (list Z) :=
  match s with
  | [] => match cur with [] => [] | _ :: _ => [cur] end
  | c :: s' =>
      if py_isspace c then
        match cur with
        | [] => split_ws_from [] s'
        | _ :: _ => cur :: split_ws_from [] s'
        end
      else split_ws_from (cur ++ [c])%list s'
  end.

Definition py_split_ws (s : list Z) : list (list Z) := split_ws_from [] s.

(** [sep.join(parts)] *)
Fixpoint py_join_cp (sep : list Z) (parts : list (list Z)) : list Z :=
  match parts with
  | [] => []
  | [p] => p
  | p :: ps => (p ++ sep ++ py_join_cp sep ps)%list
  end.

(** [s[:j]], a negative [j] counting from the end. *)
Definition py_slice_to {A} (s : list A) (j : Z) : list A :=
  if (0 <=? j)%Z then firstn (Z.to_nat j) s
  else firstn (length s - Z.to_nat (- j)) s.

(** The text after [{collapsed[: limit - 1]}] in the f-string: the three
    code points U+00E2 U+20AC U+00A6. *)
Definition excerpt_suffix : list Z := [226; 8364; 166]%Z.

(** [" ".join(html.split())] *)
Definition collapse_ws (html : list Z) : list Z := py_join_cp [32%Z] (py_split_ws html).

Definition _summarize_html (html : list Z) (limit : Z) : list Z :=
  let collapsed := collapse_ws html in
  if (Z.of_nat (length collapsed) <=? limit)%Z then collapsed
  else (py_slice_to collapsed (limit - 1) ++ excerpt_suffix)%list.

(* ------------------------------------------------------------------ *)
(** ** The related-query deduplication of [duckduckgo_search] *)

(** [max_related = related_count_value or 10] *)
Definition max_related_of (related_count_value : option Z) : Z :=
  match related_count_value with
  | Some z => if Z.eqb z 0 then 10 else z
  | None => 10
  end.

(** [for candidate in raw_related: ...] with the set [seen] and the list
    [deduped] it builds. *)
Fixpoint related_loop (max_related : Z) (cands seen deduped : list string) : list string :=
  match cands with
  | [] => deduped
  | candidate :: rest =>
      let normalized := py_strip candidate in
      if String.eqb normalized "" then related_loop max_related rest seen deduped
      else
        let lowered := py_lower normalized in
        if existsb (String.eqb lowered) seen then related_loop max_related rest seen deduped
        else
          let deduped' := (deduped ++ [normalized])%list in
          if (max_related <=? Z.of_nat (length deduped'))%Z then deduped'
          else related_loop max_related rest (lowered :: seen) deduped'
  end.

Definition dedup_related (raw_related : list string) (related_count_value : option Z)
    : list string :=
  related_loop (max_related_of related_count_value) raw_related [] [].

(* ------------------------------------------------------------------ *)
(** ** [orchestration/flow.py] *)

Module Flow.

(** Python values handed between hops.  [VRef l] is a mutable mapping
    passed by reference (the heap cell [l]). *)
Inductive Val :=
  | VNone
  | VBool (b : bool)
  | VInt (z : Z)
  | VStr (s : string)
  | VList (l : list Val)
  | VDict (d : list (string * Val))
  | VRef (l : nat).

Definition Dict := list (string * Val).

(** Exceptions: the [ValueError]s raised by the module, the [KeyError] of a
    dictionary lookup, and whatever a hop operation raises. *)
Inductive Exn :=
  | ValueError (msg : string)
  | KeyError (key : string)
  | ToolError (payload : Val).

Inductive Res (A : Type) := Ok (a : A) | Err (e : Exn).
Arguments Ok {A}. Arguments Err {A}.

Record Hop := {
  hop_name : string;
  hop_tool : string;
  hop_params : Dict;
  hop_depends_on : list string
}.

Record HopResult := {
  hr_hop : Hop;
  hr_output : Val;
  hr_dependencies : list string;   (* metadata["dependencies"] *)
  hr_tool : string                 (* metadata["tool"] *)
}.

Record TraceRecord := {
  tr_hop : string;
  tr_tool : string;
  tr_depends_on : list string
}.

Record OrchestrationResult := {
  or_results : @OD HopResult;
  or_trace : list TraceRecord
}.

Record MultiHopPlan := {
  plan_hops : list Hop;
  plan_ordered : list Hop
}.

(** [set(xs).issubset(ys)] *)
Definition subset (xs ys : list string) : bool :=
  forallb (fun x => existsb (String.eqb x) ys) xs.

(** One [for name, hop in list(pending.items())] pass of
    [_topological_sort]: returns the hops appended to [order] (in scan
    order), the new [resolved] set and the hops still pending. *)
Fixpoint scan_pass (resolved : list string) (pending : list Hop)
    : list Hop * list string * list Hop :=
  match pending with
  | [] => ([], resolved, [])
  | hop :: rest =>
      if subset (hop_depends_on hop) resolved then
        let '(appended, res, rem) := scan_pass (hop_name hop :: resolved) rest in
        (hop :: appended, res, rem)
      else
        let '(appended, res, rem) := scan_pass resolved rest in
        (appended, res, hop :: rem)
  end.

Definition cycle_error : Exn := ValueError "Cycle detected in hop dependencies".

(** The [while pending] loop.  Every pass that makes progress removes a
    hop, so [length hops] passes suffice; the [fuel = 0] branch is never
    reached from [_topological_sort] ([topological_sort_fuel] below). *)
Fixpoint topo_loop (fuel : nat) (pending : list Hop) (resolved : list string)
    (order : list Hop) : Res (list Hop) :=
  match pending with
  | [] => Ok order
  | _ :: _ =>
      match fuel with
      | O => Err cycle_error
      | S fuel' =>
          let '(appended, res, rem) := scan_pass resolved pending in
          match appended with
          | [] => Err cycle_error
          | _ :: _ => topo_loop fuel' rem res (order ++ appended)%list
          end
      end
  end.

(** [pending = {hop.name: hop for hop in hops}]: names are unique once
    [__init__] has checked them, so [pending] is [hops] in order. *)
Definition _topological_sort (hops : list Hop) : Res (list Hop) :=
  topo_loop (S (length hops)) hops [] [].

(** The same loop, returning the hops appended by each pass. *)
Fixpoint topo_passes (fuel : nat) (pending : list Hop) (resolved : list string)
    : Res (list (list Hop)) :=
  match pending with
  | [] => Ok []
  | _ :: _ =>
      match fuel with
      | O => Err cycle_error
      | S fuel' =>
          let '(appended, res, rem) := scan_pass resolved pending in
          match appended with
          | [] => Err cycle_error
          | _ :: _ =>
              match topo_passes fuel' rem res with
              | Ok ps => Ok (appended :: ps)
              | Err e => Err e
              end
          end
      end
  end.

(** [MultiHopPlan.__init__] *)
Definition MultiHopPlan_init (hops : list Hop) : Res MultiHopPlan :=
  match hops with
  | [] => Err (ValueError "MultiHopPlan requires at least one hop")
  | _ :: _ =>
      let names := map hop_name hops in
      if negb (Nat.eqb (length (nodup string_dec names)) (length hops))
      then Err (ValueError "Hop names must be unique")
      else
        match find (fun hop => negb (subset (hop_depends_on hop) names)) hops with
        | Some hop =>
            Err (ValueError ("Hop '" ++ hop_name hop ++ "' depends on unknown hops"))
        | None =>
            match _topological_sort hops with
            | Ok ordered => Ok {| plan_hops := hops; plan_ordered := ordered |}
            | Err e => Err e
            end
        end
  end.

Definition is_err {A} (r : Res A) : bool :=
  match r with Ok _ => false | Err _ => true end.

(** [l1] is [l2] with some elements left out, order kept. *)
Inductive Subseq {A} : list A -> list A -> Prop :=
  | subseq_nil : Subseq [] []
  | subseq_skip x l1 l2 : Subseq l1 l2 -> Subseq l1 (x :: l2)
  | subseq_take x l1 l2 : Subseq l1 l2 -> Subseq (x :: l1) (x :: l2).

(** [MultiHopPlan.ordered_hops] *)
Definition ordered_hops (p : MultiHopPlan) : list Hop := plan_ordered p.

(** A topological order: every hop comes after the hops it depends on. *)
Fixpoint topo_ok (resolved : list string) (order : list Hop) : bool :=
  match order with
  | [] => true
  | hop :: rest =>
      subset (hop_depends_on hop) resolved && topo_ok (hop_name hop :: resolved) rest
  end.

(** *** [MultiHopOrchestrator.execute] *)

(** [tool_registry] values.  [tool_signature] is the parameter list seen by
    [inspect.signature]; [tool_call params st] runs the operation on its
    keyword arguments, where [st] is the current content of the mapping it
    received as [state] (if any), and returns the outcome together with the
    new content of that mapping: writes to [state] persist also when the
    operation raises. *)
Record ToolCallable := {
  tool_signature : list string;
  tool_call : Dict -> Dict -> Res Val * Dict
}.

(** One invocation of a hop operation, as observed from outside. *)
Record CallRecord := {
  call_hop : Hop;
  call_params : Dict;
  call_outcome : Res Val
}.

(** The heap of mutable mappings and the log of operation invocations. *)
Record World := {
  w_heap : list Dict;
  w_calls : list CallRecord
}.

Definition M (A : Type) := World -> Res A * World.

Definition ret {A} (a : A) : M A := fun w => (Ok a, w).
Definition raise {A} (e : Exn) : M A := fun w => (Err e, w).
Definition bind {A B} (m : M A) (k : A -> M B) : M B :=
  fun w => match m w with
           | (Ok a, w') => k a w'
           | (Err e, w') => (Err e, w')
           end.
Definition lift {A} (r : Res A) : M A :=
  match r with Ok a => ret a | Err e => raise e end.

Notation "x <- m ;; k" := (bind m (fun x => k))
  (at level 61, m at next level, right associativity).

Fixpoint list_set {A} (l : list A) (n : nat) (x : A) : list A :=
  match l, n with
  | [], _ => []
  | _ :: l', O => x :: l'
  | y :: l', S n' => y :: list_set l' n' x
  end.

(** [{}]: a fresh empty mapping. *)
Definition alloc_dict : M nat :=
  fun w => (Ok (length (w_heap w)),
            {| w_heap := (w_heap w ++ [[]])%list; w_calls := w_calls w |}).

(** [state = shared_state or {}]: an empty mapping is falsy. *)
Definition resolve_state (shared_state : option nat) : M nat :=
  fun w =>
    match shared_state with
    | Some l =>
        match nth l (w_heap w) [] with
        | [] => alloc_dict w
        | _ :: _ => (Ok l, w)
        end
    | None => alloc_dict w
    end.

(** [MultiHopOrchestrator._resolve_tool] *)
Definition _resolve_tool (tools : @OD ToolCallable) (tool_name : string)
    : M ToolCallable :=
  match od_get tool_name tools with
  | Some t => ret t
  | None => raise (ValueError ("Tool '" ++ tool_name ++ "' is not registered"))
  end.

(** [{name: results[name].output for name in hop.depends_on}] *)
Fixpoint dependency_outputs (results : @OD HopResult) (names : list string)
    (acc : Dict) : Res Dict :=
  match names with
  | [] => Ok acc
  | n :: ns =>
      match od_get n results with
      | Some hr => dependency_outputs results ns (od_setitem n (hr_output hr) acc)
      | None => Err (KeyError n)
      end
  end.

(** ["x" in signature.parameters] *)
Definition declares (tool : ToolCallable) (x : string) : bool :=
  existsb (String.eqb x) (tool_signature tool).

(** [MultiHopOrchestrator._build_invocation_params] *)
Definition _build_invocation_params (tool : ToolCallable) (hop : Hop) (ctx : Val)
    (deps : Dict) (state : nat) : Dict :=
  let params := hop_params hop in
  let params := if declares tool "ctx" && negb (od_contains "ctx" params)
                then od_setitem "ctx" ctx params else params in
  let params := if declares tool "dependencies" && negb (od_contains "dependencies" params)
                then od_setitem "dependencies" (VDict deps) params else params in
  let params := if declares tool "state" && negb (od_contains "state" params)
                then od_setitem "state" (VRef state) params else params in
  params.

(** [await tool_callable( **invocation_params)] *)
Definition invoke (tool : ToolCallable) (hop : Hop) (params : Dict) : M Val :=
  fun w =>
    let cell := match od_get "state" params with Some (VRef l) => Some l | _ => None end in
    let content := match cell with Some l => nth l (w_heap w) [] | None => [] end in
    let '(r, content') := tool_call tool params content in
    let heap' := match cell with
                 | Some l => list_set (w_heap w) l content'
                 | None => w_heap w
                 end in
    (r, {| w_heap := heap';
           w_calls := (w_calls w ++ [{| call_hop := hop; call_params := params;
                                        call_outcome := r |}])%list |}).

(** [HopResult(hop=hop, output=output, metadata={...})] *)
Definition hop_result_of (hop : Hop) (output : Val) : HopResult :=
  {| hr_hop := hop; hr_output := output;
     hr_dependencies := hop_depends_on hop; hr_tool := hop_tool hop |}.

(** [{"hop": hop.name, "tool": hop.tool, "depends_on": list(hop.depends_on)}] *)
Definition trace_of (hop : Hop) : TraceRecord :=
  {| tr_hop := hop_name hop; tr_tool := hop_tool hop;
     tr_depends_on := hop_depends_on hop |}.

(** The [for hop in plan.ordered_hops()] loop of [execute]. *)
Fixpoint exec_hops (tools : @OD ToolCallable) (ctx : Val) (state : nat)
    (hops : list Hop) (results : @OD HopResult) (trace : list TraceRecord)
    : M OrchestrationResult :=
  match hops with
  | [] => ret {| or_results := results; or_trace := trace |}
  | hop :: rest =>
      tool <- _resolve_tool tools (hop_tool hop) ;;
      deps <- lift (dependency_outputs results (hop_depends_on hop) []) ;;
      output <- invoke tool hop (_build_invocation_params tool hop ctx deps state) ;;
      exec_hops tools ctx state rest
                (od_setitem (hop_name hop) (hop_result_of hop output) results)
                (trace ++ [trace_of hop])%list
  end.

(** [MultiHopOrchestrator(tools).execute(plan, ctx, shared_state=...)] *)
Definition execute (tools : @OD ToolCallable) (plan : MultiHopPlan) (ctx : Val)
    (shared_state : option nat) : M OrchestrationResult :=
  state <- resolve_state shared_state ;;
  exec_hops tools ctx state (ordered_hops plan) [] [].

(** [orchestrator.execute(MultiHopPlan(hops), ctx, ...)]: the plan is
    built first; a construction error leaves the world untouched. *)
Definition run_plan (tools : @OD ToolCallable) (hops : list Hop) (ctx : Val)
    (shared_state : option nat) : M OrchestrationResult :=
  fun w =>
    match MultiHopPlan_init hops with
    | Ok plan => execute tools plan ctx shared_state w
    | Err e => (Err e, w)
    end.

(** The [results] mapping after the hops [hs] returned [outs]. *)
Fixpoint record_results (results : @OD HopResult) (hs : list Hop) (outs : list Val)
    : @OD HopResult :=
  match hs, outs with
  | h :: hs', o :: outs' =>
      record_results (od_setitem (hop_name h) (hop_result_of h o) results) hs' outs'
  | _, _ => results
  end.

(** How an invocation was wired, given the invocations of the same run
    before it: its tool is the registered one, its keyword arguments are
    [_build_invocation_params] of a [dependencies] mapping [D] that has one
    key per name of [depends_on], each bound to the output of an earlier
    invocation of the hop of that name, and [state] is the cell [st]. *)
Definition call_wired (tools : @OD ToolCallable) (ctx : Val) (st : nat)
    (earlier : list CallRecord) (c : CallRecord) : Prop :=
  exists tool D,
    od_get (hop_tool (call_hop c)) tools = Some tool /\
    call_params c = _build_invocation_params tool (call_hop c) ctx D st /\
    NoDup (od_keys D) /\
    (forall d, In d (od_keys D) <-> In d (hop_depends_on (call_hop c))) /\
    (forall d o, od_get d D = Some o ->
       exists c', In c' earlier /\ hop_name (call_hop c') = d /\ call_outcome c' = Ok o).

Fixpoint log_wired (tools : @OD ToolCallable) (ctx : Val) (st : nat)
    (earlier new : list CallRecord) : Prop :=
  match new with
  | [] => True
  | c :: cs => call_wired tools ctx st earlier c /\ log_wired tools ctx st (earlier ++ [c])%list cs
  end.

(** The loop invariant of [_topological_sort] on an input that has a
    topological order: pending names are distinct and the pending hops can
    still be ordered after [resolved]. *)
Definition sort_inv (R : list string) (P : list Hop) : Prop :=
  NoDup (map hop_name P) /\ exists O, Permutation O P /\ topo_ok R O = true.

End Flow.

(* ================================================================== *)
(** * Theorems *)

(** ** Key construction *)

Lemma py_split_bar_nonnil s : py_split_bar s <> [].
Proof.
  induction s as [|c s IH]; simpl; [discriminate|].
  destruct (Ascii.eqb c "|"); [discriminate|].
  destruct (py_split_bar s); discriminate.
Qed.

Lemma py_split_bar_app p s :
  has_bar p = false ->
  py_split_bar (p ++ s) =
  match py_split_bar s with x :: r => (p ++ x) :: r | [] => [p] end.
Proof.
  induction p as [|c p IH]; simpl; intros Hp.
  - pose proof (py_split_bar_nonnil s). destruct (py_split_bar s); congruence.
  - apply orb_false_iff in Hp as [Hc Hp]. rewrite Hc, (IH Hp).
    pose proof (py_split_bar_nonnil s). destruct (py_split_bar s); congruence.
Qed.

Lemma string_app_nil_r s : (s ++ "")%string = s.
Proof. induction s; simpl; congruence. Qed.

Lemma py_split_bar_join parts :
  parts <> [] -> Forall (fun p => has_bar p = false) parts ->
  py_split_bar (py_join "|" parts) = parts.
Proof.
  induction parts as [|p ps IH]; intros Hne Hall; [congruence|].
  inversion Hall as [|? ? Hp Hps]; subst.
  destruct ps as [|q qs].
  - simpl. rewrite <- (string_app_nil_r p) at 1.
    rewrite (py_split_bar_app p "" Hp). simpl. now rewrite string_app_nil_r.
  - change (py_join "|" (p :: q :: qs)) with (p ++ String "|" (py_join "|" (q :: qs)))%string.
    rewrite (py_split_bar_app _ _ Hp).
    assert (E : py_split_bar (String "|" (py_join "|" (q :: qs)))
                = "" :: py_split_bar (py_join "|" (q :: qs))) by reflexivity.
    rewrite E, IH by (discriminate || assumption). now rewrite string_app_nil_r.
Qed.

Lemma has_bar_uint d : has_bar (NilEmpty.string_of_uint d) = false.
Proof. induction d; simpl; auto. Qed.

Lemma has_bar_py_str_int z : has_bar (py_str_int z) = false.
Proof.
  unfold py_str_int, NilZero.string_of_int, NilZero.string_of_uint.
  destruct (Z.to_int z) as [u|u]; destruct u; simpl; auto using has_bar_uint.
Qed.

Lemma py_str_int_inj a b : py_str_int a = py_str_int b -> a = b.
Proof.
  intros H. apply DecimalZ.to_int_inj.
  assert (Hn : forall z, Z.to_int z <> Decimal.Pos Decimal.Nil /\ Z.to_int z <> Decimal.Neg Decimal.Nil).
  { intros [|p|p]; simpl; split; try discriminate;
      intros [= E]; exact (DecimalPos.Unsigned.to_uint_nonnil p E). }
  apply (f_equal NilZero.int_of_string) in H. unfold py_str_int in H.
  destruct (Hn a), (Hn b).
  rewrite !NilZero.isi in H by assumption. congruence.
Qed.

Lemma intent_str_inj i j : intent_str i = intent_str j -> i = j.
Proof. destruct i, j; simpl; congruence. Qed.

Lemma has_bar_intent i : has_bar (intent_str i) = false.
Proof. destruct i; reflexivity. Qed.

Lemma has_bar_py_or_str o : opt_has_bar o = false -> has_bar (py_or_str o "*") = false.
Proof. destruct o as [s|]; simpl; [destruct (String.eqb s "")|]; auto. Qed.

Lemma make_key_parts_ok a :
  key_args_ok a = true -> Forall (fun p => has_bar p = false) (make_key_parts a).
Proof.
  unfold key_args_ok. intros H. apply andb_true_iff in H as [H H3].
  apply andb_true_iff in H as [H1 H2]. apply negb_true_iff in H1, H2, H3.
  unfold make_key_parts.
  repeat constructor; auto using has_bar_intent, has_bar_py_str_int, has_bar_py_or_str.
  destruct (ka_related a); reflexivity.
Qed.

Lemma make_key_parts_inj a b :
  key_args_ok a = true -> key_args_ok b = true ->
  make_key a = make_key b -> make_key_parts a = make_key_parts b.
Proof.
  intros Ha Hb H. unfold make_key in H.
  apply (f_equal py_split_bar) in H.
  rewrite !py_split_bar_join in H by (discriminate || now apply make_key_parts_ok).
  exact H.
Qed.

(** Claim C1 (as amended). [make_key] is a function of the key tuple, and
    for tuples whose free-text fields ([embedding_signature], [site],
    [time_period]) contain no ["|"], two tuples get the same key exactly
    when they agree after the falsy normalisation: [site] and
    [time_period] equal to [None] or [""] are read as ["*"], and
    [related_count] equal to [None] or [0] is read as [0]. *)
Theorem make_key_injective_normalised (a b : KeyArgs) :
  key_args_ok a = true -> key_args_ok b = true ->
  (make_key a = make_key b <-> key_norm a = key_norm b).
Proof.
  intros Ha Hb. split.
  - intros H. apply make_key_parts_inj in H; auto.
    unfold make_key_parts in H.
    injection H as Hi Hs Hc Ho Hp Hsite Htp Hr Hrc.
    apply intent_str_inj in Hi. apply py_str_int_inj in Hc, Ho, Hp, Hrc.
    assert (ka_related a = ka_related b)
      by (destruct (ka_related a), (ka_related b); congruence).
    unfold key_norm. congruence.
  - unfold key_norm, make_key, make_key_parts. intros H.
    injection H as Hi Hs Hc Ho Hp Hsite Htp Hr Hrc.
    now rewrite Hi, Hs, Hc, Ho, Hp, Hsite, Htp, Hr, Hrc.
Qed.

Lemma make_key_injective_normalised_witness :
  let a := {| ka_intent := News; ka_embedding_signature := "5d41402abc4b2a76b9719d91";
              ka_count := 10; ka_offset := 0; ka_page := 1; ka_site := None;
              ka_time_period := None; ka_related := false; ka_related_count := None |} in
  let b := {| ka_intent := News; ka_embedding_signature := "5d41402abc4b2a76b9719d91";
              ka_count := 10; ka_offset := 0; ka_page := 2; ka_site := None;
              ka_time_period := None; ka_related := false; ka_related_count := None |} in
  key_args_ok a = true /\ key_args_ok b = true /\
  (make_key a = make_key b <-> key_norm a = key_norm b).
Proof.
  intros a b. split; [reflexivity|]. split; [reflexivity|].
  apply make_key_injective_normalised; reflexivity.
Defined.

(** Claim C1 fails as stated: the tuples with [site = None] and
    [site = ""] are different but get the same key, since both are falsy
    in [site or "*"]. *)
Lemma make_key_not_injective :
  let a := {| ka_intent := General; ka_embedding_signature := "abc";
              ka_count := 10; ka_offset := 0; ka_page := 1; ka_site := None;
              ka_time_period := None; ka_related := false; ka_related_count := None |} in
  let b := {| ka_intent := General; ka_embedding_signature := "abc";
              ka_count := 10; ka_offset := 0; ka_page := 1; ka_site := Some "";
              ka_time_period := None; ka_related := false; ka_related_count := None |} in
  a <> b /\ make_key a = make_key b.
Proof. intros a b. split; [discriminate | reflexivity]. Qed.

(** ** Freshness of [SemanticCache.get] *)

Lemma age_seconds_shift {P} (e : CacheEntry P) (d : Q) :
  age_seconds e (ce_created_at e + d) == d.
Proof. unfold age_seconds. ring. Qed.

Lemma Qle_bool_compat x y z : x == y -> Qle_bool x z = Qle_bool y z.
Proof.
  intros H. destruct (Qle_bool x z) eqn:E1, (Qle_bool y z) eqn:E2; auto.
  - apply Qle_bool_iff in E1. rewrite H in E1. apply Qle_bool_iff in E1. congruence.
  - apply Qle_bool_iff in E2. rewrite <- H in E2. apply Qle_bool_iff in E2. congruence.
Qed.

(** Claim C2. On a stored entry, [get key intent] reports [fresh] exactly
    when the entry's age at the clock reading taken for the check is at most
    [ttl(intent)] (the lookup records the age at the next reading), with
    the TTL table news 900 s, technical 86400 s, shopping 21600 s,
    academic 129600 s, finance 10800 s, local 7200 s, general 21600 s; a
    news lookup is fresh at age 900 and stale at age 901; a fresh lookup
    moves the entry to the most-recently-used end, a stale one leaves the
    store unchanged. *)
Theorem get_freshness_by_intent {P} (c : SemanticCache P) (key : string)
    (e : CacheEntry P) (intent : SearchIntent) (now1 now2 : Q) :
  od_get key (sc_store c) = Some e ->
  get c key intent now1 now2 =
    (Some {| cl_payload := ce_payload e;
             cl_age_seconds := age_seconds e now2;
             cl_fresh := Qle_bool (age_seconds e now1) (inject_Z (_intent_ttl intent)) |},
     if Qle_bool (age_seconds e now1) (inject_Z (_intent_ttl intent))
     then with_store c (od_delete key (sc_store c) ++ [(key, e)])%list
     else c)
  /\ map _intent_ttl [News; Technical; Shopping; Academic; Finance; Local; General]
     = [900; 86400; 21600; 129600; 10800; 7200; 21600]%Z
  /\ option_map cl_fresh (fst (get c key News (ce_created_at e + 900) now2)) = Some true
  /\ option_map cl_fresh (fst (get c key News (ce_created_at e + 901) now2)) = Some false.
Proof.
  intros He. unfold get, od_move_to_end. rewrite He.
  split; [reflexivity|]. split; [reflexivity|]. simpl.
  split.
  - f_equal. rewrite (Qle_bool_compat _ _ _ (age_seconds_shift e 900)). reflexivity.
  - f_equal. rewrite (Qle_bool_compat _ _ _ (age_seconds_shift e 901)). reflexivity.
Qed.

Lemma get_freshness_by_intent_witness :
  let e := {| ce_key := "k"; ce_intent := News; ce_embedding_signature := "sig";
              ce_payload := 7%nat; ce_created_at := 1000 |} in
  let c := {| sc_store := [("j", e); ("k", e)]; sc_max_entries := 256 |} in
  od_get "k" (sc_store c) = Some e /\
  (get c "k" News 1900 1900 =
    (Some {| cl_payload := ce_payload e;
             cl_age_seconds := age_seconds e 1900;
             cl_fresh := Qle_bool (age_seconds e 1900) (inject_Z (_intent_ttl News)) |},
     if Qle_bool (age_seconds e 1900) (inject_Z (_intent_ttl News))
     then with_store c (od_delete "k" (sc_store c) ++ [("k", e)])%list
     else c)
  /\ map _intent_ttl [News; Technical; Shopping; Academic; Finance; Local; General]
     = [900; 86400; 21600; 129600; 10800; 7200; 21600]%Z
  /\ option_map cl_fresh (fst (get c "k" News (ce_created_at e + 900) 1900)) = Some true
  /\ option_map cl_fresh (fst (get c "k" News (ce_created_at e + 901) 1900)) = Some false).
Proof.
  intros e c. split; [reflexivity|].
  apply get_freshness_by_intent. reflexivity.
Defined.

(** ** The recency order under [SemanticCache.set] *)

Section RecencyLists.

Lemma lastn_app_long {A} n (P Z : list A) :
  (n <= length Z)%nat -> lastn n (P ++ Z) = lastn n Z.
Proof.
  intros H. unfold lastn. rewrite length_app, skipn_app.
  rewrite skipn_all2 by lia. simpl. f_equal. lia.
Qed.

Lemma lastn_short {A} n (l : list A) : (length l <= n)%nat -> lastn n l = l.
Proof. intros H. unfold lastn. now replace (length l - n)%nat with 0%nat by lia. Qed.

Lemma length_lastn {A} n (l : list A) : length (lastn n l) = Nat.min n (length l).
Proof. unfold lastn. rewrite length_skipn. lia. Qed.

Lemma lastn_split {A} n (l : list A) :
  l = (firstn (length l - n) l ++ lastn n l)%list.
Proof. unfold lastn. now rewrite firstn_skipn. Qed.

Lemma NoDup_lastn {A} n (l : list A) : NoDup l -> NoDup (lastn n l).
Proof.
  intros H. rewrite (lastn_split n l) in H. eapply NoDup_app_remove_l; eauto.
Qed.

Lemma remove_key_notin k l : ~ In k l -> remove_key k l = l.
Proof.
  intros H. apply forallb_filter_id. apply forallb_forall. intros x Hx.
  destruct (String.eqb_spec x k); subst; [contradiction | reflexivity].
Qed.

Lemma remove_key_In k x l : In x (remove_key k l) <-> In x l /\ x <> k.
Proof.
  unfold remove_key. rewrite filter_In.
  destruct (String.eqb_spec x k); simpl; intuition congruence.
Qed.

Lemma length_remove_key_NoDup k l :
  NoDup l -> (length l <= S (length (remove_key k l)))%nat.
Proof.
  induction l as [|x l IH]; simpl; intros Hl; [lia|].
  inversion Hl as [|? ? Hx Hl']; subst.
  destruct (String.eqb_spec x k); simpl.
  - subst. rewrite remove_key_notin by assumption. lia.
  - specialize (IH Hl'). lia.
Qed.

(** Moving [k] to the end of a suffix of [X] and keeping the last [n]
    elements is the same as doing so on the whole of [X]. *)
Lemma lastn_remove_step n k X :
  NoDup X ->
  lastn n (remove_key k (lastn n X) ++ [k])%list = lastn n (remove_key k X ++ [k])%list.
Proof.
  intros Hnd. destruct (Nat.le_gt_cases (length X) n) as [Hs|Hl].
  - now rewrite (lastn_short n X Hs).
  - rewrite (lastn_split n X) at 2. unfold remove_key at 2. rewrite filter_app.
    rewrite <- app_assoc. fold (remove_key k (lastn n X)).
    symmetry. apply lastn_app_long. rewrite length_app. simpl.
    pose proof (length_remove_key_NoDup k _ (NoDup_lastn n X Hnd)) as H.
    rewrite length_lastn in H. lia.
Qed.

Lemma remove_key_remove_all k ks l :
  remove_key k (remove_all ks l) = remove_all (ks ++ [k])%list l.
Proof.
  unfold remove_key, remove_all.
  induction l as [|x l IH]; simpl; [reflexivity|].
  rewrite existsb_app. simpl.
  destruct (existsb (String.eqb x) ks); simpl; [exact IH|].
  destruct (String.eqb x k); simpl; [exact IH|]. now rewrite IH.
Qed.

End RecencyLists.

Section OrderedDictFacts.
Context {V : Type}.
Implicit Types (s : @OD V) (k : string) (v : V).

Lemma od_keys_delete k s : od_keys (od_delete k s) = remove_key k (od_keys s).
Proof.
  induction s as [|[k' v'] s IH]; simpl; [reflexivity|].
  destruct (String.eqb k' k); simpl; congruence.
Qed.

Lemma od_keys_app s1 s2 : od_keys (s1 ++ s2)%list = (od_keys s1 ++ od_keys s2)%list.
Proof. apply map_app. Qed.

Lemma od_keys_lastn n s : od_keys (lastn n s) = lastn n (od_keys s).
Proof. unfold lastn, od_keys. rewrite length_map. now rewrite skipn_map. Qed.

Lemma od_get_contains k s : od_contains k s = true -> exists v, od_get k s = Some v.
Proof.
  induction s as [|[k' v'] s IH]; simpl; [discriminate|].
  destruct (String.eqb k' k); simpl; eauto.
Qed.

Lemma od_delete_id k s : od_contains k s = false -> od_delete k s = s.
Proof.
  induction s as [|[k' v'] s IH]; simpl; [reflexivity|].
  destruct (String.eqb k' k); simpl; [discriminate|]. intros H. now rewrite IH.
Qed.

Lemma od_setitem_map_delete k v s :
  map (fun p => if String.eqb (fst p) k then (k, v) else p) (od_delete k s)
  = od_delete k s.
Proof.
  induction s as [|[k' v'] s IH]; simpl; [reflexivity|].
  destruct (String.eqb k' k) eqn:E; simpl; [exact IH|]. now rewrite E, IH.
Qed.

Lemma od_contains_last k v s : od_contains k (s ++ [(k, v)])%list = true.
Proof.
  unfold od_contains. rewrite existsb_app. simpl. rewrite String.eqb_refl.
  apply orb_true_r.
Qed.

(** The store written by [set] before eviction: the key's old entry, if
    any, is gone and the new entry is last. *)
Lemma od_setitem_after_move k v s :
  od_setitem k v (if od_contains k s then od_move_to_end k s else s)
  = (od_delete k s ++ [(k, v)])%list.
Proof.
  destruct (od_contains k s) eqn:C.
  - destruct (od_get_contains k s C) as [v0 Hg].
    unfold od_move_to_end. rewrite Hg. unfold od_setitem.
    rewrite od_contains_last, map_app, od_setitem_map_delete. simpl.
    now rewrite String.eqb_refl.
  - unfold od_setitem. rewrite C. now rewrite od_delete_id.
Qed.

Lemma od_get_app_notin k v s :
  ~ In k (od_keys s) -> od_get k (s ++ [(k, v)])%list = Some v.
Proof.
  induction s as [|[k' v'] s IH]; simpl; intros Hn.
  - now rewrite String.eqb_refl.
  - destruct (String.eqb_spec k' k); [subst; tauto|]. apply IH. tauto.
Qed.

Lemma evict_loop_spec m s :
  (0 <= m)%Z -> evict_loop m s = Some (lastn (Z.to_nat m) s).
Proof.
  intros Hm. induction s as [|x s IH]; cbn [evict_loop].
  - destruct (Z.leb_spec (Z.of_nat (length (@nil (string * V)))) m); [reflexivity | simpl in *; lia].
  - destruct (Z.leb_spec (Z.of_nat (length (x :: s))) m) as [H|H];
      simpl length in H.
    + unfold lastn. simpl length. now replace (S (length s) - Z.to_nat m)%nat with 0%nat by lia.
    + rewrite IH. unfold lastn. simpl length.
      replace (S (length s) - Z.to_nat m)%nat with (S (length s - Z.to_nat m)) by lia.
      reflexivity.
Qed.

End OrderedDictFacts.

Section CacheFacts.
Context {P : Type}.
Implicit Types (c : SemanticCache P).

Lemma set_spec c key intent sig payload now :
  (0 <= sc_max_entries c)%Z ->
  set c key intent sig payload now =
  Some (with_store c (lastn (Z.to_nat (sc_max_entries c))
          (od_delete key (sc_store c) ++ [(key, new_entry key intent sig payload now)])%list)).
Proof.
  intros Hm. unfold set, _evict_if_needed. simpl.
  rewrite od_setitem_after_move, evict_loop_spec by exact Hm. reflexivity.
Qed.

Lemma set_keys c key intent sig payload now :
  (0 <= sc_max_entries c)%Z ->
  exists c', set c key intent sig payload now = Some c' /\
    sc_max_entries c' = sc_max_entries c /\
    cache_keys c' = lastn (Z.to_nat (sc_max_entries c))
                      (remove_key key (cache_keys c) ++ [key])%list.
Proof.
  intros Hm. rewrite set_spec by exact Hm. eexists. split; [reflexivity|].
  split; [reflexivity|]. unfold cache_keys. simpl.
  now rewrite od_keys_lastn, od_keys_app, od_keys_delete.
Qed.

Lemma NoDup_remove_key_last k l : NoDup l -> NoDup (remove_key k l ++ [k])%list.
Proof.
  intros H. apply NoDup_app; [now apply NoDup_filter | repeat constructor; auto |].
  intros a Ha [E|[]]; subst. apply remove_key_In in Ha. tauto.
Qed.

Lemma set_all_app c l1 l2 :
  set_all c (l1 ++ l2)%list =
  match set_all c l1 with Some c' => set_all c' l2 | None => None end.
Proof.
  revert c. induction l1 as [|[[[[k i] sig] p] now] l1 IH]; intros c; simpl; [reflexivity|].
  destruct (set c k i sig p now); [apply IH | reflexivity].
Qed.

Lemma remove_all_nil l : remove_all [] l = l.
Proof. apply forallb_filter_id, forallb_forall. reflexivity. Qed.

Lemma remove_all_notin ks l a : In a (remove_all ks l) -> ~ In a ks.
Proof.
  unfold remove_all. rewrite filter_In. intros [_ H] Hin.
  apply negb_true_iff in H. assert (existsb (String.eqb a) ks = true); [|congruence].
  apply existsb_exists. exists a. split; [exact Hin | apply String.eqb_refl].
Qed.

(** After a run of [set] calls with pairwise distinct keys, the recency
    order is: the keys present before and not set again, then the set keys
    in order, cut to the last [max_entries]. *)
Lemma set_all_keys c items :
  (0 <= sc_max_entries c)%Z -> NoDup (cache_keys c) ->
  (length (cache_keys c) <= Z.to_nat (sc_max_entries c))%nat ->
  NoDup (map item_key items) ->
  exists c', set_all c items = Some c' /\
    sc_max_entries c' = sc_max_entries c /\
    cache_keys c' = lastn (Z.to_nat (sc_max_entries c))
      (remove_all (map item_key items) (cache_keys c) ++ map item_key items)%list.
Proof.
  intros Hm Hnd Hlen. induction items as [|it items IH] using rev_ind; intros Hks.
  - exists c. simpl. rewrite remove_all_nil, app_nil_r, lastn_short by exact Hlen. auto.
  - rewrite map_app in Hks. simpl in Hks.
    pose proof (NoDup_remove_2 _ _ _ Hks) as Hk. rewrite app_nil_r in Hk.
    apply NoDup_app_remove_r in Hks.
    destruct (IH Hks) as (c1 & H1 & Hm1 & Hk1).
    destruct it as [[[[k i] sig] p] now].
    rewrite <- Hm1 in Hm. destruct (set_keys c1 k i sig p now Hm) as (c2 & H2 & Hm2 & Hk2).
    exists c2. rewrite set_all_app, H1. simpl. rewrite H2.
    split; [reflexivity|]. split; [congruence|].
    rewrite Hk2, Hk1, Hm1, lastn_remove_step.
    + unfold remove_key at 1. rewrite filter_app. fold (remove_key k (remove_all (map item_key items) (cache_keys c))).
      fold (remove_key k (map item_key items)).
      rewrite remove_key_remove_all, (remove_key_notin k (map item_key items) Hk).
      rewrite map_app. simpl. now rewrite <- app_assoc.
    + apply NoDup_app; [now apply NoDup_filter | exact Hks |].
      intros a Ha. exact (remove_all_notin _ _ _ Ha).
Qed.

End CacheFacts.

(** Claim C4. For a capacity [max_entries >= 0] and a store in its
    invariant (distinct keys, at most [max_entries] of them): one [set]
    succeeds, moves its key to the most-recently-used end with the new
    entry, evicts exactly the least-recently-used keys beyond the capacity,
    and keeps the keys distinct and the size within the capacity; a fresh
    or stale [get] keeps the keys distinct; and [set]-ing [max_entries + k]
    distinct keys leaves exactly [max_entries] entries, the last
    [max_entries] keys set, so the first [k] are gone. *)
Theorem set_evicts_lru {P} (c : SemanticCache P) :
  (0 <= sc_max_entries c)%Z -> NoDup (cache_keys c) ->
  (length (sc_store c) <= Z.to_nat (sc_max_entries c))%nat ->
  (forall key intent sig payload now, exists c',
     set c key intent sig payload now = Some c' /\
     cache_keys c' = lastn (Z.to_nat (sc_max_entries c))
                       (remove_key key (cache_keys c) ++ [key])%list /\
     NoDup (cache_keys c') /\
     (length (sc_store c') <= Z.to_nat (sc_max_entries c))%nat /\
     ((0 < sc_max_entries c)%Z ->
        od_get key (sc_store c') = Some (new_entry key intent sig payload now)))
  /\ (forall key intent now1 now2, NoDup (cache_keys (snd (get c key intent now1 now2))))
  /\ (forall items, NoDup (map item_key items) ->
        (Z.to_nat (sc_max_entries c) <= length items)%nat ->
        exists c', set_all c items = Some c' /\
          cache_keys c' = skipn (length items - Z.to_nat (sc_max_entries c))
                                (map item_key items) /\
          length (sc_store c') = Z.to_nat (sc_max_entries c)).
Proof.
  intros Hm Hnd Hlen.
  assert (Hlenk : (length (cache_keys c) <= Z.to_nat (sc_max_entries c))%nat)
    by (unfold cache_keys, od_keys; now rewrite length_map).
  split; [|split].
  - intros key intent sig payload now.
    destruct (set_keys c key intent sig payload now Hm) as (c' & Hs & Hm' & Hk).
    exists c'. split; [exact Hs|]. split; [exact Hk|]. split.
    + rewrite Hk. apply NoDup_lastn, NoDup_remove_key_last, Hnd.
    + assert (Hl : length (sc_store c') = length (cache_keys c'))
        by (unfold cache_keys, od_keys; now rewrite length_map).
      split.
      * rewrite Hl, Hk, length_lastn. lia.
      * intros Hpos. rewrite set_spec in Hs by exact Hm. injection Hs as <-. simpl.
        set (D := od_delete key (sc_store c)).
        unfold lastn. rewrite length_app, skipn_app. simpl length.
        replace (length D + 1 - Z.to_nat (sc_max_entries c) - length D)%nat with 0%nat by lia.
        simpl skipn at 2. apply od_get_app_notin.
        intros Hin. unfold od_keys in Hin. rewrite <- skipn_map in Hin.
        assert (Hin' : In key (od_keys D)).
        { unfold od_keys. rewrite <- (firstn_skipn (length D + 1 - Z.to_nat (sc_max_entries c)) (map fst D)).
          apply in_or_app. now right. }
        unfold D in Hin'. rewrite od_keys_delete, remove_key_In in Hin'. tauto.
  - intros key intent now1 now2. unfold get.
    destruct (od_get key (sc_store c)) as [e|] eqn:He; simpl; [|exact Hnd].
    destruct (Qle_bool _ _); simpl; [|exact Hnd].
    unfold od_move_to_end. rewrite He. unfold cache_keys. simpl.
    rewrite od_keys_app, od_keys_delete. apply NoDup_remove_key_last, Hnd.
  - intros items Hks Hn.
    destruct (set_all_keys c items Hm Hnd Hlenk Hks) as (c' & Hs & _ & Hk).
    exists c'. split; [exact Hs|].
    rewrite lastn_app_long in Hk by (rewrite length_map; exact Hn).
    unfold lastn in Hk. rewrite length_map in Hk. split; [exact Hk|].
    transitivity (length (cache_keys c')).
    + unfold cache_keys, od_keys. now rewrite length_map.
    + rewrite Hk, length_skipn, length_map. lia.
Qed.

Lemma set_evicts_lru_witness :
  let c := @new_cache nat 2 in
  (0 <= sc_max_entries c)%Z /\ NoDup (cache_keys c) /\
  (length (sc_store c) <= Z.to_nat (sc_max_entries c))%nat /\
  ((forall key intent sig payload now, exists c',
     set c key intent sig payload now = Some c' /\
     cache_keys c' = lastn (Z.to_nat (sc_max_entries c))
                       (remove_key key (cache_keys c) ++ [key])%list /\
     NoDup (cache_keys c') /\
     (length (sc_store c') <= Z.to_nat (sc_max_entries c))%nat /\
     ((0 < sc_max_entries c)%Z ->
        od_get key (sc_store c') = Some (new_entry key intent sig payload now)))
  /\ (forall key intent now1 now2, NoDup (cache_keys (snd (get c key intent now1 now2))))
  /\ (forall items, NoDup (map item_key items) ->
        (Z.to_nat (sc_max_entries c) <= length items)%nat ->
        exists c', set_all c items = Some c' /\
          cache_keys c' = skipn (length items - Z.to_nat (sc_max_entries c))
                                (map item_key items) /\
          length (sc_store c') = Z.to_nat (sc_max_entries c))).
Proof.
  intros c. split; [vm_compute; discriminate|]. split; [constructor|].
  split; [simpl; lia|].
  apply set_evicts_lru; [vm_compute; discriminate | constructor | simpl; lia].
Defined.

(** ** Plan construction and topological order *)

(* ------------------------------------------------------------------ *)
(** ** The search glue *)

Lemma merge_loop_spec rs seen merged :
  merge_loop rs seen merged = (merged ++ dedup_by_url_from seen (filter url_truthy rs))%list.
Proof.
  revert seen merged. induction rs as [|r rs IH]; intros seen merged; simpl.
  - now rewrite app_nil_r.
  - unfold url_truthy at 1. destruct (String.eqb (sr_url r) ""); simpl; [apply IH|].
    destruct (existsb (String.eqb (sr_url r)) seen); [apply IH|].
    rewrite IH, <- app_assoc. reflexivity.
Qed.

Lemma merge_results_eq fresh cached :
  _merge_results fresh cached = dedup_by_url (filter url_truthy (fresh ++ cached)).
Proof. unfold _merge_results. now rewrite merge_loop_spec. Qed.

Lemma dedup_by_url_from_incl seen rs r : In r (dedup_by_url_from seen rs) -> In r rs.
Proof.
  revert seen. induction rs as [|x rs IH]; intros seen; simpl; [tauto|].
  destruct (existsb _ seen); simpl.
  - intros H. right. exact (IH _ H).
  - intros [<- | H]; [now left | right; exact (IH _ H)].
Qed.

Lemma get_max_entries {P} (c : SemanticCache P) key intent now1 now2 :
  sc_max_entries (snd (get c key intent now1 now2)) = sc_max_entries c.
Proof.
  unfold get. destruct (od_get key (sc_store c)); [|reflexivity].
  destruct (Qle_bool _ _); reflexivity.
Qed.

(** After [set] into a cache of positive capacity, the key holds the new entry. *)
Lemma set_get_new {P} (c c' : SemanticCache P) key intent sig payload now :
  (0 < sc_max_entries c)%Z -> set c key intent sig payload now = Some c' ->
  od_get key (sc_store c') = Some (new_entry key intent sig payload now).
Proof.
  intros Hpos Hs. rewrite set_spec in Hs by lia. injection Hs as <-. simpl.
  set (D := od_delete key (sc_store c)).
  unfold lastn. rewrite length_app, skipn_app. simpl length.
  replace (length D + 1 - Z.to_nat (sc_max_entries c) - length D)%nat with 0%nat by lia.
  simpl skipn at 2. apply od_get_app_notin.
  intros Hin. unfold od_keys in Hin. rewrite <- skipn_map in Hin.
  assert (Hin' : In key (od_keys D)).
  { unfold od_keys.
    rewrite <- (firstn_skipn (length D + 1 - Z.to_nat (sc_max_entries c)) (map fst D)).
    apply in_or_app. now right. }
  unfold D in Hin'. rewrite od_keys_delete, remove_key_In in Hin'. tauto.
Qed.

Lemma fetch_and_store_spec c1 key intent sig get_related cached now3 fetch :
  (0 < sc_max_entries c1)%Z ->
  let run := fetch_and_store c1 key intent sig get_related cached now3 fetch in
  run_fetched run = true /\
  match fetch with
  | FetchFailed msg => run_outcome run = Raised msg /\ run_cache run = c1
  | Fetched fresh _ _ =>
      exists p, run_outcome run = Returned p /\
        set c1 key intent sig p now3 = Some (run_cache run) /\
        od_get key (sc_store (run_cache run)) = Some (new_entry key intent sig p now3) /\
        p_intent p = intent /\
        p_results p = match cached with
                      | Some l => match p_results (cl_payload l) with
                                  | [] => fresh
                                  | cr => dedup_by_url (filter url_truthy (fresh ++ cr))
                                  end
                      | None => fresh
                      end /\
        p_cache_metadata p =
          Some match cached with
               | Some l => {| cm_status := "refresh"; cm_age_seconds := round2 (cl_age_seconds l) |}
               | None => {| cm_status := "miss"; cm_age_seconds := 0 |}
               end
  end.
Proof.
  intros Hm run. unfold run, fetch_and_store. clear run.
  destruct fetch as [fresh total deduped|msg]; [|split; [reflexivity | split; reflexivity]].
  match goal with |- context [set c1 key intent sig ?p now3] => set (payload := p) end.
  destruct (set c1 key intent sig payload now3) as [c2|] eqn:Hs.
  2:{ rewrite set_spec in Hs by lia. discriminate. }
  split; [reflexivity|]. exists payload. split; [reflexivity|]. split; [exact Hs|].
  split; [exact (set_get_new _ _ _ _ _ _ _ Hm Hs)|]. split; [reflexivity|]. split.
  - unfold payload. simpl. destruct cached as [l|]; [|reflexivity].
    destruct (p_results (cl_payload l)); [reflexivity|]. apply merge_results_eq.
  - reflexivity.
Qed.

(** Claim C3.  In [duckduckgo_search]: on a fresh lookup the cached
    payload is returned with its [intent] set and [cache_metadata]
    [{"status": "hit", "age_seconds": round(age, 2)}], the fetch is not
    performed, and the result does not depend on what a fetch would give.
    On a miss or stale lookup the fetch runs; if it fails its error is
    raised and the cache is left as the lookup left it; otherwise the
    payload's results are the fresh results when there is no cached
    payload or it has no results, and else the fresh results followed by
    the cached ones, with every record lacking a truthy URL dropped and
    then deduplicated by URL keeping the first occurrence; its metadata
    is [refresh] with the stale entry's rounded age, or [miss] with age 0;
    and the payload is stored with [set] under the key, replacing any
    entry there. *)
Theorem search_glue_cache_paths (c : SemanticCache Payload) (a : KeyArgs)
    (now1 now2 now3 : Q) (fetch : FetchOutcome) :
  (0 < sc_max_entries c)%Z ->
  let key := make_key a in
  let intent := ka_intent a in
  let sig := ka_embedding_signature a in
  let run := duckduckgo_search_cached c a now1 now2 now3 fetch in
  let refetched := fun (c1 : SemanticCache Payload) (cached : option (CacheLookup Payload)) =>
    run_fetched run = true /\
    match fetch with
    | FetchFailed msg => run_outcome run = Raised msg /\ run_cache run = c1
    | Fetched fresh _ _ =>
        exists p, run_outcome run = Returned p /\
          set c1 key intent sig p now3 = Some (run_cache run) /\
          od_get key (sc_store (run_cache run)) = Some (new_entry key intent sig p now3) /\
          p_intent p = intent /\
          p_results p = match cached with
                        | Some l => match p_results (cl_payload l) with
                                    | [] => fresh
                                    | cr => dedup_by_url (filter url_truthy (fresh ++ cr))
                                    end
                        | None => fresh
                        end /\
          p_cache_metadata p =
            Some match cached with
                 | Some l => {| cm_status := "refresh"; cm_age_seconds := round2 (cl_age_seconds l) |}
                 | None => {| cm_status := "miss"; cm_age_seconds := 0 |}
                 end
    end in
  match get c key intent now1 now2 with
  | (Some l, c1) =>
      if cl_fresh l then
        forall fetch',
          duckduckgo_search_cached c a now1 now2 now3 fetch' =
          {| run_outcome := Returned
               {| p_results := p_results (cl_payload l);
                  p_total_results := p_total_results (cl_payload l);
                  p_intent := intent;
                  p_related_searches := p_related_searches (cl_payload l);
                  p_cache_metadata :=
                    Some {| cm_status := "hit"; cm_age_seconds := round2 (cl_age_seconds l) |} |};
             run_cache := c1; run_fetched := false |}
      else refetched c1 (Some l)
  | (None, c1) => refetched c1 None
  end.
Proof.
  intros Hm. cbv beta zeta.
  pose proof (get_max_entries c (make_key a) (ka_intent a) now1 now2) as Hmax.
  unfold duckduckgo_search_cached. cbv beta zeta.
  destruct (get c (make_key a) (ka_intent a) now1 now2) as [[l|] c1] eqn:G;
    simpl in Hmax; rewrite <- Hmax in Hm.
  - destruct (cl_fresh l).
    + intros fetch'. reflexivity.
    + exact (fetch_and_store_spec c1 _ _ _ _ (Some l) now3 fetch Hm).
  - exact (fetch_and_store_spec c1 _ _ _ _ None now3 fetch Hm).
Qed.

Lemma search_glue_cache_paths_witness :
  let c := @new_cache Payload 256 in
  let a := {| ka_intent := News; ka_embedding_signature := "0123456789abcdef01234567";
              ka_count := 10; ka_offset := 0; ka_page := 1; ka_site := None;
              ka_time_period := None; ka_related := false; ka_related_count := None |} in
  let fetch := Fetched [ {| sr_url := "https://example.org/a"; sr_title := "A";
                            sr_snippet := "a" |} ] 11 [] in
  (0 < sc_max_entries c)%Z /\
  (let key := make_key a in
  let intent := ka_intent a in
  let sig := ka_embedding_signature a in
  let run := duckduckgo_search_cached c a 0 0 0 fetch in
  let refetched := fun (c1 : SemanticCache Payload) (cached : option (CacheLookup Payload)) =>
    run_fetched run = true /\
    match fetch with
    | FetchFailed msg => run_outcome run = Raised msg /\ run_cache run = c1
    | Fetched fresh _ _ =>
        exists p, run_outcome run = Returned p /\
          set c1 key intent sig p 0 = Some (run_cache run) /\
          od_get key (sc_store (run_cache run)) = Some (new_entry key intent sig p 0) /\
          p_intent p = intent /\
          p_results p = match cached with
                        | Some l => match p_results (cl_payload l) with
                                    | [] => fresh
                                    | cr => dedup_by_url (filter url_truthy (fresh ++ cr))
                                    end
                        | None => fresh
                        end /\
          p_cache_metadata p =
            Some match cached with
                 | Some l => {| cm_status := "refresh"; cm_age_seconds := round2 (cl_age_seconds l) |}
                 | None => {| cm_status := "miss"; cm_age_seconds := 0 |}
                 end
    end in
  match get c key intent 0 0 with
  | (Some l, c1) =>
      if cl_fresh l then
        forall fetch',
          duckduckgo_search_cached c a 0 0 0 fetch' =
          {| run_outcome := Returned
               {| p_results := p_results (cl_payload l);
                  p_total_results := p_total_results (cl_payload l);
                  p_intent := intent;
                  p_related_searches := p_related_searches (cl_payload l);
                  p_cache_metadata :=
                    Some {| cm_status := "hit"; cm_age_seconds := round2 (cl_age_seconds l) |} |};
             run_cache := c1; run_fetched := false |}
      else refetched c1 (Some l)
  | (None, c1) => refetched c1 None
  end).
Proof.
  intros c a fetch. split; [reflexivity|].
  exact (search_glue_cache_paths c a 0 0 0 fetch eq_refl).
Defined.

(** Against the specification's merge: a fresh record without a URL is
    dropped on a refresh, where concatenating and deduplicating by URL
    would keep it. *)
Lemma search_glue_drops_urlless_fresh :
  let r0 := {| sr_url := ""; sr_title := "fresh result without url"; sr_snippet := "s0" |} in
  let r1 := {| sr_url := "https://example.org/a"; sr_title := "A"; sr_snippet := "s1" |} in
  let a := {| ka_intent := General; ka_embedding_signature := "0123456789abcdef01234567";
              ka_count := 10; ka_offset := 0; ka_page := 1; ka_site := None;
              ka_time_period := None; ka_related := false; ka_related_count := None |} in
  let old := {| p_results := [r1]; p_total_results := 11; p_intent := General;
                p_related_searches := None;
                p_cache_metadata := Some {| cm_status := "miss"; cm_age_seconds := 0 |} |} in
  let c := {| sc_store := [(make_key a, new_entry (make_key a) General
                                          (ka_embedding_signature a) old 0)];
              sc_max_entries := 256 |} in
  exists p,
    run_outcome (duckduckgo_search_cached c a (100000 # 1) (100000 # 1) (100000 # 1)
                   (Fetched [r0] 11 [])) = Returned p /\
    p_cache_metadata p = Some {| cm_status := "refresh"; cm_age_seconds := 10000000 # 100 |} /\
    p_results p = [r1] /\
    spec_merge [r0] [r1] = [r0; r1] /\
    p_results p <> spec_merge [r0] [r1].
Proof.
  intros r0 r1 a old c. vm_compute. eexists.
  split; [reflexivity|]. split; [reflexivity|]. split; [reflexivity|].
  split; [reflexivity | discriminate].
Qed.

(** Claim C9.  [_merge_results] drops every record without a truthy URL,
    fresh ones included: it is deduplication by URL of the concatenation
    restricted to records with a URL.  On a miss (no cached payload) the
    returned results are the fresh results as they are, records without
    URL included. *)
Theorem merge_drops_urlless_records (c : SemanticCache Payload) (a : KeyArgs)
    (now1 now2 now3 : Q) (reranked : list SearchResult) (total : Z) (related : list string) :
  (0 < sc_max_entries c)%Z ->
  fst (get c (make_key a) (ka_intent a) now1 now2) = None ->
  (forall fresh cached r, In r (_merge_results fresh cached) -> url_truthy r = true) /\
  (forall fresh cached,
     _merge_results fresh cached = dedup_by_url (filter url_truthy (fresh ++ cached))) /\
  _merge_results [{| sr_url := ""; sr_title := "t"; sr_snippet := "s" |}] [] = [] /\
  exists p,
    run_outcome (duckduckgo_search_cached c a now1 now2 now3 (Fetched reranked total related))
      = Returned p /\ p_results p = reranked.
Proof.
  intros Hm Hg. split; [|split; [exact merge_results_eq | split; [reflexivity|]]].
  - intros fresh cached r H. rewrite merge_results_eq in H.
    apply dedup_by_url_from_incl, filter_In in H. apply H.
  - pose proof (get_max_entries c (make_key a) (ka_intent a) now1 now2) as Hmax.
    unfold duckduckgo_search_cached. cbv beta zeta.
    destruct (get c (make_key a) (ka_intent a) now1 now2) as [lk c1].
    simpl in Hg, Hmax. subst lk. rewrite <- Hmax in Hm.
    destruct (fetch_and_store_spec c1 (make_key a) (ka_intent a) (ka_embedding_signature a)
                (ka_related a) None now3 (Fetched reranked total related) Hm)
      as (_ & p & Hp & _ & _ & _ & Hr & _).
    exists p. split; [exact Hp | exact Hr].
Qed.

Lemma merge_drops_urlless_records_witness :
  let c := @new_cache Payload 256 in
  let a := {| ka_intent := News; ka_embedding_signature := "0123456789abcdef01234567";
              ka_count := 10; ka_offset := 0; ka_page := 1; ka_site := None;
              ka_time_period := None; ka_related := false; ka_related_count := None |} in
  let reranked := [ {| sr_url := ""; sr_title := "no url"; sr_snippet := "s" |} ] in
  (0 < sc_max_entries c)%Z /\ fst (get c (make_key a) (ka_intent a) 0 0) = None /\
  ((forall fresh cached r, In r (_merge_results fresh cached) -> url_truthy r = true) /\
  (forall fresh cached,
     _merge_results fresh cached = dedup_by_url (filter url_truthy (fresh ++ cached))) /\
  _merge_results [{| sr_url := ""; sr_title := "t"; sr_snippet := "s" |}] [] = [] /\
  exists p,
    run_outcome (duckduckgo_search_cached c a 0 0 0 (Fetched reranked 1 []))
      = Returned p /\ p_results p = reranked).
Proof.
  intros c a reranked. split; [reflexivity|]. split; [reflexivity|].
  exact (merge_drops_urlless_records c a 0 0 0 reranked 1 [] eq_refl eq_refl).
Defined.

Module FlowPlan.
Import Flow.

Lemma subset_spec xs ys : subset xs ys = true <-> (forall x, In x xs -> In x ys).
Proof.
  unfold subset. rewrite forallb_forall. split; intros H x Hx; specialize (H x Hx).
  - apply existsb_exists in H as (y & Hy & E). apply String.eqb_eq in E. now subst.
  - apply existsb_exists. exists x. split; [exact H | apply String.eqb_refl].
Qed.

Lemma subset_mono xs ys zs : subset xs ys = true -> incl ys zs -> subset xs zs = true.
Proof. rewrite !subset_spec. intros H I x Hx. apply I, H, Hx. Qed.

Lemma topo_ok_app r a b :
  topo_ok r (a ++ b)%list = topo_ok r a && topo_ok (rev (map hop_name a) ++ r)%list b.
Proof.
  revert r. induction a as [|h a IH]; intros r; simpl; [reflexivity|].
  rewrite IH, <- app_assoc. simpl. now rewrite andb_assoc.
Qed.

Lemma Subseq_nil_l {A} (l : list A) : Subseq [] l.
Proof. induction l; constructor; auto. Qed.

Lemma Subseq_trans {A} (l1 l2 l3 : list A) : Subseq l1 l2 -> Subseq l2 l3 -> Subseq l1 l3.
Proof.
  intros H12 H23. revert l1 H12. induction H23; intros l0 H.
  - exact H.
  - constructor. auto.
  - inversion H; subst; [apply subseq_skip | apply subseq_take]; auto.
Qed.

Lemma scan_pass_spec R P app R' rem :
  scan_pass R P = (app, R', rem) ->
  Permutation (app ++ rem)%list P /\ R' = (rev (map hop_name app) ++ R)%list /\
  topo_ok R app = true /\ Subseq app P /\ Subseq rem P /\
  (app = [] -> forall h, In h P -> subset (hop_depends_on h) R = false).
Proof.
  revert R app R' rem. induction P as [|h P IH]; intros R app R' rem; simpl.
  - intros [= <- <- <-]. simpl. repeat split; try constructor. intros _ h [].
  - destruct (subset (hop_depends_on h) R) eqn:Eh.
    + destruct (scan_pass (hop_name h :: R) P) as [[a r'] m] eqn:Es.
      intros [= <- <- <-].
      destruct (IH _ _ _ _ Es) as (Hp & HR & Ht & Ha & Hm & _).
      repeat split.
      * simpl. now constructor.
      * rewrite HR. simpl. now rewrite <- app_assoc.
      * simpl. now rewrite Eh, Ht.
      * now constructor.
      * now constructor.
      * discriminate.
    + destruct (scan_pass R P) as [[a r'] m] eqn:Es.
      intros [= <- <- <-].
      destruct (IH _ _ _ _ Es) as (Hp & HR & Ht & Ha & Hm & Hn).
      repeat split; auto.
      * rewrite <- Permutation_middle. now constructor.
      * now constructor.
      * now constructor.
      * intros E h' [<-|Hin]; [exact Eh | exact (Hn E h' Hin)].
Qed.

Lemma topo_loop_sound fuel P R ord fin :
  topo_loop fuel P R ord = Ok fin ->
  exists X, fin = (ord ++ X)%list /\ Permutation X P /\ topo_ok R X = true.
Proof.
  revert P R ord. induction fuel as [|f IH]; intros P R ord; destruct P as [|h P'];
    cbn [topo_loop]; try discriminate.
  - intros [= <-]. exists []. rewrite app_nil_r. auto.
  - intros [= <-]. exists []. rewrite app_nil_r. auto.
  - destruct (scan_pass R (h :: P')) as [[app R'] rem] eqn:Es.
    destruct (scan_pass_spec _ _ _ _ _ Es) as (Hp & HR & Ht & _ & _ & _).
    destruct app as [|a app']; [discriminate|]. intros H.
    destruct (IH _ _ _ H) as (X & -> & HX & HtX).
    exists (a :: app' ++ X)%list. split; [now rewrite <- app_assoc|]. split.
    + rewrite <- Hp. change (a :: app' ++ X)%list with ((a :: app') ++ X)%list.
      now apply Permutation_app_head.
    + change (a :: app' ++ X)%list with ((a :: app') ++ X)%list.
      rewrite topo_ok_app, Ht, <- HR. exact HtX.
Qed.

Lemma Permutation_filter {A} (f : A -> bool) l l' :
  Permutation l l' -> Permutation (filter f l) (filter f l').
Proof.
  induction 1; simpl.
  - constructor.
  - destruct (f x); auto.
  - destruct (f x), (f y); auto. constructor.
  - eapply Permutation_trans; eauto.
Qed.

(** Dropping scheduled hops from a topological order keeps it one, once
    their names count as resolved. *)
Lemma topo_ok_filter keep R R' O :
  topo_ok R O = true ->
  (forall h, In h O -> keep h = false -> In (hop_name h) R') ->
  incl R R' -> topo_ok R' (filter keep O) = true.
Proof.
  revert R R'. induction O as [|h O IH]; intros R R' Ht Hk Hi; simpl; [reflexivity|].
  simpl in Ht. apply andb_true_iff in Ht as [Hs Ht].
  destruct (keep h) eqn:E; simpl.
  - rewrite (subset_mono _ _ _ Hs Hi). simpl.
    apply (IH (hop_name h :: R)); auto.
    + intros h' Hin Hk'. right. apply Hk; auto. now right.
    + intros x [<-|Hx]; [now left | right; auto].
  - apply (IH (hop_name h :: R)); auto.
    + intros h' Hin Hk'. apply Hk; auto. now right.
    + intros x [<-|Hx]; [apply Hk; auto; now left | auto].
Qed.

Lemma NoDup_app_disjoint {A} (l l' : list A) x :
  NoDup (l ++ l')%list -> In x l -> In x l' -> False.
Proof.
  induction l as [|y l IH]; simpl; intros Hnd Hx Hx'; [exact Hx|].
  inversion Hnd as [|? ? Hy Hnd']; subst.
  destruct Hx as [<-|Hx]; [apply Hy, in_or_app; now right | exact (IH Hnd' Hx Hx')].
Qed.

Lemma filter_all_false {A} (f : A -> bool) l :
  (forall x, In x l -> f x = false) -> filter f l = [].
Proof.
  induction l as [|y l IH]; simpl; intros H; [reflexivity|].
  rewrite (H y (or_introl eq_refl)). apply IH. intros x Hx. apply H. now right.
Qed.

Lemma scan_pass_progress R P app R' rem :
  scan_pass R P = (app, R', rem) -> P <> [] -> sort_inv R P -> app <> [].
Proof.
  intros Es HP [_ (O & HO & Ht)] E.
  destruct (scan_pass_spec _ _ _ _ _ Es) as (_ & _ & _ & _ & _ & Hn).
  destruct O as [|h O'].
  - apply Permutation_nil in HO. congruence.
  - simpl in Ht. apply andb_true_iff in Ht as [Hs _].
    rewrite (Hn E h) in Hs; [discriminate|].
    apply (Permutation_in h HO). now left.
Qed.

Lemma scan_pass_inv R P app R' rem :
  scan_pass R P = (app, R', rem) -> sort_inv R P -> sort_inv R' rem.
Proof.
  intros Es [Hnd (O & HO & Ht)].
  destruct (scan_pass_spec _ _ _ _ _ Es) as (Hp & HR & _ & _ & _ & _).
  assert (Hnd2 : NoDup (map hop_name app ++ map hop_name rem)%list).
  { rewrite <- map_app. apply (Permutation_NoDup (Permutation_map hop_name (Permutation_sym Hp))).
    exact Hnd. }
  set (keep := fun h => negb (existsb (String.eqb (hop_name h)) (map hop_name app))).
  assert (Hkeep : forall h, keep h = false -> In (hop_name h) (map hop_name app)).
  { intros h Hk. unfold keep in Hk. apply negb_false_iff, existsb_exists in Hk as (y & Hy & E).
    apply String.eqb_eq in E. now rewrite E. }
  split.
  - eapply NoDup_app_remove_l; exact Hnd2.
  - exists (filter keep O). split.
    + eapply Permutation_trans; [apply Permutation_filter, (Permutation_trans HO (Permutation_sym Hp))|].
      rewrite filter_app.
      replace (filter keep app) with (@nil Hop).
      * simpl. rewrite forallb_filter_id; [reflexivity|]. apply forallb_forall.
        intros h Hh. unfold keep. apply negb_true_iff.
        destruct (existsb _ _) eqn:E; [|reflexivity].
        apply existsb_exists in E as (y & Hy & Ey). apply String.eqb_eq in Ey. subst y.
        exfalso. apply (NoDup_app_disjoint _ _ _ Hnd2 Hy). now apply in_map.
      * symmetry. apply filter_all_false. intros h Hh. unfold keep.
        apply negb_false_iff, existsb_exists. exists (hop_name h).
        split; [now apply in_map | apply String.eqb_refl].
    + rewrite HR. apply (topo_ok_filter keep R); auto.
      * intros h _ Hk. apply in_or_app. left. rewrite <- in_rev. now apply Hkeep.
      * intros x Hx. apply in_or_app. now right.
Qed.

Lemma topo_loop_complete fuel P R ord :
  (length P < fuel)%nat -> sort_inv R P -> exists fin, topo_loop fuel P R ord = Ok fin.
Proof.
  revert P R ord. induction fuel as [|f IH]; intros P R ord Hl Hinv; [lia|].
  destruct P as [|h P']; cbn [topo_loop]; [eauto|].
  destruct (scan_pass R (h :: P')) as [[app R'] rem] eqn:Es.
  pose proof (scan_pass_progress _ _ _ _ _ Es ltac:(discriminate) Hinv) as Hne.
  destruct (scan_pass_spec _ _ _ _ _ Es) as (Hp & _ & _ & _ & _ & _).
  destruct app as [|a app']; [congruence|].
  apply IH; [|exact (scan_pass_inv _ _ _ _ _ Es Hinv)].
  apply Permutation_length in Hp. rewrite length_app in Hp. simpl in Hp. simpl in Hl. lia.
Qed.

Lemma topological_sort_iff hops :
  NoDup (map hop_name hops) ->
  (is_err (_topological_sort hops) = false <->
   exists order, Permutation order hops /\ topo_ok [] order = true).
Proof.
  intros Hnd. unfold _topological_sort. split.
  - destruct (topo_loop _ _ _ _) as [fin|e] eqn:E; [|discriminate]. intros _.
    destruct (topo_loop_sound _ _ _ _ _ E) as (X & -> & HX & Ht). eauto.
  - intros Hex. destruct (topo_loop_complete (S (length hops)) hops [] [])
      as [fin E]; [lia | split; auto | now rewrite E].
Qed.

Lemma length_nodup_le l : (length (nodup string_dec l) <= length l)%nat.
Proof.
  induction l as [|a l IH]; simpl; [lia|]. destruct (in_dec string_dec a l); simpl; lia.
Qed.

Lemma nodup_length_iff l : length (nodup string_dec l) = length l <-> NoDup l.
Proof.
  induction l as [|a l IH]; simpl.
  - split; [constructor | reflexivity].
  - destruct (in_dec string_dec a l) as [Hin|Hin]; simpl.
    + pose proof (length_nodup_le l). split; [lia|]. intros Hnd.
      inversion Hnd; subst. contradiction.
    + split.
      * intros H. constructor; [exact Hin | apply IH; lia].
      * intros Hnd. inversion Hnd; subst. f_equal. now apply IH.
Qed.

Lemma subset_false xs ys : subset xs ys = false -> exists x, In x xs /\ ~ In x ys.
Proof.
  induction xs as [|x xs IH]; simpl; [discriminate|].
  intros H. apply andb_false_iff in H as [H|H].
  - exists x. split; [now left|]. intros Hin.
    assert (existsb (String.eqb x) ys = true); [|congruence].
    apply existsb_exists. exists x. split; [exact Hin | apply String.eqb_refl].
  - destruct (IH H) as (y & Hy & Hn). exists y. split; [now right | exact Hn].
Qed.

Lemma topo_loop_passes fuel P R ord :
  topo_loop fuel P R ord =
  match topo_passes fuel P R with
  | Ok ps => Ok (ord ++ concat ps)%list
  | Err e => Err e
  end.
Proof.
  revert P R ord. induction fuel as [|f IH]; intros P R ord; destruct P as [|h P'];
    cbn [topo_loop topo_passes]; try (simpl; rewrite app_nil_r; reflexivity); [reflexivity|].
  destruct (scan_pass R (h :: P')) as [[app R'] rem].
  destruct app as [|a app']; [reflexivity|].
  rewrite IH. destruct (topo_passes f rem R'); [|reflexivity].
  simpl. now rewrite <- app_assoc.
Qed.

Lemma topo_passes_subseq fuel P R ps :
  topo_passes fuel P R = Ok ps -> Forall (fun pass => pass <> [] /\ Subseq pass P) ps.
Proof.
  revert P R ps. induction fuel as [|f IH]; intros P R ps; destruct P as [|h P'];
    cbn [topo_passes]; try discriminate; try (intros [= <-]; constructor).
  destruct (scan_pass R (h :: P')) as [[app R'] rem] eqn:Es.
  destruct (scan_pass_spec _ _ _ _ _ Es) as (_ & _ & _ & Ha & Hr & _).
  destruct app as [|a app']; [discriminate|].
  destruct (topo_passes f rem R') as [ps'|e] eqn:E; [|discriminate].
  intros [= <-]. constructor; [split; [discriminate | exact Ha]|].
  eapply Forall_impl; [|exact (IH _ _ _ E)].
  intros pass [Hne Hs]. split; [exact Hne | exact (Subseq_trans _ _ _ Hs Hr)].
Qed.

Lemma plan_init_ok hops p :
  MultiHopPlan_init hops = Ok p ->
  plan_hops p = hops /\ _topological_sort hops = Ok (plan_ordered p) /\
  NoDup (map hop_name hops) /\
  (forall h d, In h hops -> In d (hop_depends_on h) -> In d (map hop_name hops)).
Proof.
  destruct hops as [|h0 hs]; [discriminate|].
  remember (h0 :: hs) as hops eqn:Hh.
  assert (Init : MultiHopPlan_init hops =
    if negb (Nat.eqb (length (nodup string_dec (map hop_name hops))) (length hops))
    then Err (ValueError "Hop names must be unique")
    else match find (fun hop => negb (subset (hop_depends_on hop) (map hop_name hops))) hops with
         | Some hop => Err (ValueError ("Hop '" ++ hop_name hop ++ "' depends on unknown hops"))
         | None => match _topological_sort hops with
                   | Ok ordered => Ok {| plan_hops := hops; plan_ordered := ordered |}
                   | Err e => Err e
                   end
         end) by (subst; reflexivity).
  rewrite Init. clear Init.
  destruct (Nat.eqb_spec (length (nodup string_dec (map hop_name hops))) (length hops)) as [Eq|Eq];
    simpl negb; cbv iota; [|discriminate].
  rewrite <- (length_map hop_name hops) in Eq. apply nodup_length_iff in Eq.
  destruct (find _ hops) as [h|] eqn:F; [discriminate|].
  destruct (_topological_sort hops) as [ord|e]; [|discriminate].
  intros [= <-]. simpl. repeat split; auto.
  intros h d Hin Hd. pose proof (find_none _ _ F h Hin) as Hf. apply negb_false_iff in Hf.
  exact (proj1 (subset_spec _ _) Hf d Hd).
Qed.

End FlowPlan.

Module FlowExec.
Import Flow FlowPlan.

Section OrderedDictLookup.
Context {V : Type}.
Implicit Types (s : @OD V) (k : string) (v : V).

Lemma od_contains_get k s : od_contains k s = match od_get k s with Some _ => true | None => false end.
Proof.
  induction s as [|[k' v'] s IH]; simpl; [reflexivity|].
  destruct (String.eqb k' k); [reflexivity | exact IH].
Qed.

Lemma od_get_app k s1 s2 :
  od_get k (s1 ++ s2)%list = match od_get k s1 with Some v => Some v | None => od_get k s2 end.
Proof.
  induction s1 as [|[k' v'] s1 IH]; simpl; [reflexivity|].
  destruct (String.eqb k' k); [reflexivity | exact IH].
Qed.

Lemma od_get_map_set k k' v s :
  od_get k (map (fun p => if String.eqb (fst p) k' then (k', v) else p) s)
  = if String.eqb k' k then match od_get k' s with Some _ => Some v | None => None end
    else od_get k s.
Proof.
  induction s as [|[a b] s IH]; simpl; [now destruct (String.eqb k' k)|].
  destruct (String.eqb_spec a k') as [->|Ha]; simpl.
  - rewrite IH; try rewrite String.eqb_refl; destruct (String.eqb k' k); reflexivity.
  - rewrite IH. destruct (String.eqb_spec k' k) as [->|Hk].
    + destruct (String.eqb_spec a k); [congruence | reflexivity].
    + reflexivity.
Qed.

Lemma od_get_setitem k k' v s :
  od_get k (od_setitem k' v s) = if String.eqb k' k then Some v else od_get k s.
Proof.
  unfold od_setitem. rewrite od_contains_get.
  destruct (od_get k' s) as [v0|] eqn:G.
  - rewrite od_get_map_set, G. reflexivity.
  - rewrite od_get_app. simpl.
    destruct (String.eqb_spec k' k) as [<-|Hne]; [now rewrite G|].
    destruct (od_get k s); reflexivity.
Qed.

Lemma od_keys_setitem k v s :
  od_keys (od_setitem k v s) = if od_contains k s then od_keys s else (od_keys s ++ [k])%list.
Proof.
  unfold od_setitem. destruct (od_contains k s); [|apply od_keys_app].
  unfold od_keys. rewrite map_map. apply map_ext. intros [a b]; simpl.
  destruct (String.eqb_spec a k); simpl; congruence.
Qed.

Lemma od_contains_In k s : od_contains k s = true <-> In k (od_keys s).
Proof.
  unfold od_contains, od_keys. rewrite existsb_exists, in_map_iff. split.
  - intros (p & Hp & E). apply String.eqb_eq in E. eauto.
  - intros (p & E & Hp). exists p. split; [exact Hp|]. rewrite E. apply String.eqb_refl.
Qed.

Lemma od_get_In k s : In k (od_keys s) -> exists v, od_get k s = Some v.
Proof. intros H. apply od_get_contains, od_contains_In, H. Qed.

Lemma od_get_Some_In k v s : od_get k s = Some v -> In k (od_keys s).
Proof.
  intros H. apply od_contains_In. rewrite od_contains_get, H. reflexivity.
Qed.

Lemma od_keys_setitem_new k v s :
  ~ In k (od_keys s) -> od_keys (od_setitem k v s) = (od_keys s ++ [k])%list.
Proof.
  intros Hn. rewrite od_keys_setitem.
  destruct (od_contains k s) eqn:C; [|reflexivity].
  exfalso. apply Hn, od_contains_In, C.
Qed.

Lemma In_od_keys_setitem d k v s :
  In d (od_keys (od_setitem k v s)) <-> In d (od_keys s) \/ d = k.
Proof.
  rewrite od_keys_setitem. destruct (od_contains k s) eqn:C.
  - apply od_contains_In in C. split; [tauto|]. intros [H | ->]; assumption.
  - rewrite in_app_iff. simpl. intuition.
Qed.

Lemma NoDup_od_keys_setitem k v s : NoDup (od_keys s) -> NoDup (od_keys (od_setitem k v s)).
Proof.
  intros H. rewrite od_keys_setitem. destruct (od_contains k s) eqn:C; [exact H|].
  apply NoDup_app; [exact H | repeat constructor; simpl; tauto |].
  intros x Hx [<- | []]. rewrite <- od_contains_In in Hx. congruence.
Qed.

(** [d[x] = v] guarded by [... and "x" not in d], as in
    [_build_invocation_params]: a key already present is never overwritten. *)
Lemma od_get_inject k x v b s :
  od_get k (if b && negb (od_contains x s) then od_setitem x v s else s)
  = match od_get k s with
    | Some u => Some u
    | None => if String.eqb x k && b then Some v else None
    end.
Proof.
  rewrite od_contains_get. destruct b; simpl.
  - destruct (od_get x s) as [u|] eqn:Gx; simpl.
    + destruct (od_get k s) as [w|] eqn:Gk; [reflexivity|].
      destruct (String.eqb_spec x k); [congruence | reflexivity].
    + rewrite od_get_setitem. destruct (String.eqb_spec x k) as [<-|].
      * now rewrite Gx.
      * destruct (od_get k s); reflexivity.
  - rewrite andb_false_r. destruct (od_get k s); reflexivity.
Qed.

End OrderedDictLookup.

Lemma nth_list_set_other {A} (l : list A) n m x d :
  n <> m -> nth m (list_set l n x) d = nth m l d.
Proof.
  revert n m. induction l as [|y l IH]; intros n m Hne; [reflexivity|].
  destruct n, m; simpl; try reflexivity; [congruence|]. apply IH. congruence.
Qed.

Lemma length_list_set {A} (l : list A) n x : length (list_set l n x) = length l.
Proof.
  revert n. induction l as [|y l IH]; intros n; [reflexivity|].
  destruct n; simpl; [reflexivity|]. now rewrite IH.
Qed.

(** Every keyword argument of [_build_invocation_params]: the hop's own
    params first, then the injected special names. *)
Lemma build_invocation_params_get tool hop ctx D st k :
  od_get k (_build_invocation_params tool hop ctx D st) =
  match od_get k (hop_params hop) with
  | Some v => Some v
  | None =>
      if String.eqb k "ctx" && declares tool "ctx" then Some ctx
      else if String.eqb k "dependencies" && declares tool "dependencies" then Some (VDict D)
      else if String.eqb k "state" && declares tool "state" then Some (VRef st)
      else None
  end.
Proof.
  unfold _build_invocation_params. cbv zeta.
  rewrite !od_get_inject.
  destruct (od_get k (hop_params hop)); [reflexivity|].
  rewrite !(String.eqb_sym _ k).
  destruct (String.eqb_spec k "ctx") as [->|]; simpl; [now destruct (declares tool "ctx")|].
  destruct (String.eqb_spec k "dependencies") as [->|]; simpl;
    [now destruct (declares tool "dependencies")|].
  destruct (String.eqb_spec k "state") as [->|]; simpl; [now destruct (declares tool "state")|].
  reflexivity.
Qed.

Lemma dependency_outputs_spec (R : @OD HopResult) names (acc : Dict) :
  (forall d, In d names -> In d (od_keys R)) ->
  exists D, dependency_outputs R names acc = Ok D /\
    (forall d, In d (od_keys D) <-> In d (od_keys acc) \/ In d names) /\
    (NoDup (od_keys acc) -> NoDup (od_keys D)) /\
    (forall d o, od_get d D = Some o ->
       od_get d acc = Some o \/ exists hr, od_get d R = Some hr /\ hr_output hr = o).
Proof.
  revert acc. induction names as [|n ns IH]; intros acc Hin.
  - exists acc. simpl. repeat split; auto; tauto.
  - destruct (od_get_In n R (Hin n (or_introl eq_refl))) as [hr Hr].
    simpl. rewrite Hr.
    destruct (IH (od_setitem n (hr_output hr) acc)) as (D & E & Hk & Hnd & Hg);
      [intros d Hd; apply Hin; now right|].
    exists D. split; [exact E|]. split; [|split].
    + intros d. rewrite Hk, In_od_keys_setitem. simpl. intuition.
    + intros H. apply Hnd, NoDup_od_keys_setitem, H.
    + intros d o Hd. destruct (Hg d o Hd) as [H|H]; [|now right].
      rewrite od_get_setitem in H. destruct (String.eqb_spec n d) as [<-|]; [|now left].
      right. exists hr. split; [exact Hr | congruence].
Qed.

Lemma topo_ok_incl r r' O : incl r r' -> topo_ok r O = true -> topo_ok r' O = true.
Proof.
  revert r r'. induction O as [|h O IH]; intros r r' I; simpl; [reflexivity|].
  intros H. apply andb_true_iff in H as [H1 H2]. apply andb_true_iff. split.
  - exact (subset_mono _ _ _ H1 I).
  - apply (IH _ _ (incl_cons (in_eq _ _) (incl_tl _ I)) H2).
Qed.

Lemma NoDup_app_notin_r {A} (l1 l2 : list A) x :
  NoDup (l1 ++ x :: l2)%list -> ~ In x l1.
Proof.
  intros H Hx. apply NoDup_remove_2 in H. apply H, in_app_iff. now left.
Qed.

Lemma record_results_get_notin k R hs outs :
  ~ In k (map hop_name hs) -> od_get k (record_results R hs outs) = od_get k R.
Proof.
  revert R outs. induction hs as [|h hs IH]; intros R outs Hn; [reflexivity|].
  destruct outs as [|o outs]; [reflexivity|]. simpl.
  rewrite IH by (simpl in Hn; tauto). rewrite od_get_setitem.
  destruct (String.eqb_spec (hop_name h) k); [simpl in Hn; tauto | reflexivity].
Qed.

Lemma record_results_spec R hs outs :
  length outs = length hs -> NoDup (od_keys R ++ map hop_name hs)%list ->
  od_keys (record_results R hs outs) = (od_keys R ++ map hop_name hs)%list /\
  (forall i h o, nth_error hs i = Some h -> nth_error outs i = Some o ->
     od_get (hop_name h) (record_results R hs outs) = Some (hop_result_of h o)).
Proof.
  revert R outs. induction hs as [|h hs IH]; intros R outs Hl Hnd.
  - destruct outs; [|discriminate]. simpl. split; [now rewrite app_nil_r|].
    intros [|i]; discriminate.
  - destruct outs as [|o outs]; [discriminate|]. simpl in Hl |- *.
    assert (Hn : ~ In (hop_name h) (od_keys R)).
    { exact (NoDup_app_notin_r _ _ _ Hnd). }
    assert (Hnd' : NoDup (od_keys (od_setitem (hop_name h) (hop_result_of h o) R)
                          ++ map hop_name hs)%list).
    { rewrite od_keys_setitem_new by exact Hn. now rewrite <- app_assoc. }
    destruct (IH _ outs (eq_add_S _ _ Hl) Hnd') as [Hk Hg]. split.
    + rewrite Hk, od_keys_setitem_new by exact Hn. now rewrite <- app_assoc.
    + intros [|i] h' o'; simpl.
      * intros [= <-] [= <-]. rewrite record_results_get_notin.
        -- rewrite od_get_setitem, String.eqb_refl. reflexivity.
        -- intros H. apply NoDup_remove_2 in Hnd. apply Hnd. apply in_app_iff. now right.
      * apply Hg.
Qed.

(** The loop of [execute], run after the invocations [run] of the same
    run, on hops whose dependencies are all among the keys of [results]
    or earlier in the list. *)
Lemma exec_hops_run tools ctx st hs R T w base run :
  w_calls w = (base ++ run)%list ->
  NoDup (od_keys R ++ map hop_name hs)%list ->
  topo_ok (od_keys R) hs = true ->
  (forall d hr, od_get d R = Some hr ->
     exists c, In c run /\ hop_name (call_hop c) = d /\ call_outcome c = Ok (hr_output hr)) ->
  match exec_hops tools ctx st hs R T w with
  | (Ok res, w') =>
      exists new outs,
        w_calls w' = (w_calls w ++ new)%list /\ map call_hop new = hs /\
        map call_outcome new = map Ok outs /\ log_wired tools ctx st run new /\
        res = {| or_results := record_results R hs outs; or_trace := (T ++ map trace_of hs)%list |}
  | (Err e, w') =>
      exists i h pre outs tail,
        nth_error hs i = Some h /\ w_calls w' = (w_calls w ++ pre ++ tail)%list /\
        map call_hop pre = firstn i hs /\ map call_outcome pre = map Ok outs /\
        log_wired tools ctx st run (pre ++ tail) /\
        ((tail = [] /\ od_get (hop_tool h) tools = None /\
          e = ValueError ("Tool '" ++ hop_tool h ++ "' is not registered")) \/
         (exists c, tail = [c] /\ call_hop c = h /\ call_outcome c = Err e))
  end.
Proof.
  revert R T w run. induction hs as [|h hs IH]; intros R T w run Hw Hnd Ht HR.
  - exists [], []. simpl. rewrite !app_nil_r. repeat split; auto.
  - cbn [exec_hops]. unfold bind at 1, _resolve_tool.
    destruct (od_get (hop_tool h) tools) as [tool|] eqn:Et.
    2:{ exists 0%nat, h, [], [], []. simpl. rewrite app_nil_r. repeat split; auto. }
    unfold ret at 1. cbn [topo_ok] in Ht. apply andb_true_iff in Ht as [Hsub Ht].
    destruct (dependency_outputs_spec R (hop_depends_on h) []
                (proj1 (subset_spec _ _) Hsub)) as (D & ED & HDk & HDnd & HDg).
    unfold bind at 1. rewrite ED. unfold lift, ret at 1. unfold bind at 1.
    set (params := _build_invocation_params tool h ctx D st).
    set (c0 := fun r => {| call_hop := h; call_params := params; call_outcome := r |}).
    assert (Hc : forall r, call_wired tools ctx st run (c0 r)).
    { intros r. exists tool, D. simpl. split; [exact Et|]. split; [reflexivity|].
      split; [apply HDnd; constructor|]. split.
      - intros d. rewrite HDk. simpl. tauto.
      - intros d o Hd. destruct (HDg d o Hd) as [Hx | (hr & Hr & Ho)]; [discriminate|]. subst o. exact (HR d hr Hr). }
    unfold invoke at 1.
    set (cell := match od_get "state" params with Some (VRef l) => Some l | _ => None end).
    destruct (tool_call tool params (match cell with Some l => nth l (w_heap w) [] | None => [] end))
      as [[o|e] content'] eqn:Ecall.
    + set (w1 := {| w_heap := match cell with Some l => list_set (w_heap w) l content'
                                              | None => w_heap w end;
                    w_calls := (w_calls w ++ [{| call_hop := h; call_params := params;
                                                 call_outcome := Ok o |}])%list |}).
      assert (Hn : ~ In (hop_name h) (od_keys R)) by exact (NoDup_app_notin_r _ _ _ Hnd).
      specialize (IH (od_setitem (hop_name h) (hop_result_of h o) R) (T ++ [trace_of h])%list
                    w1 (run ++ [c0 (Ok o)])%list).
      assert (H1 : w_calls w1 = (base ++ run ++ [c0 (Ok o)])%list).
      { simpl. rewrite Hw. now rewrite <- app_assoc. }
      assert (H2 : NoDup (od_keys (od_setitem (hop_name h) (hop_result_of h o) R)
                          ++ map hop_name hs)%list).
      { rewrite od_keys_setitem_new by exact Hn. now rewrite <- app_assoc. }
      assert (H3 : topo_ok (od_keys (od_setitem (hop_name h) (hop_result_of h o) R)) hs = true).
      { rewrite od_keys_setitem_new by exact Hn.
        apply (topo_ok_incl (hop_name h :: od_keys R)); [|exact Ht].
        intros x [<- | Hx]; apply in_app_iff; [right; now left | now left]. }
      assert (H4 : forall d hr,
                 od_get d (od_setitem (hop_name h) (hop_result_of h o) R) = Some hr ->
                 exists c, In c (run ++ [c0 (Ok o)])%list /\ hop_name (call_hop c) = d /\
                           call_outcome c = Ok (hr_output hr)).
      { intros d hr Hd. rewrite od_get_setitem in Hd.
        destruct (String.eqb_spec (hop_name h) d) as [<- | ].
        - injection Hd as <-. exists (c0 (Ok o)). split; [apply in_app_iff; right; now left|].
          split; reflexivity.
        - destruct (HR d hr Hd) as (c & Hc1 & Hc2 & Hc3). exists c.
          split; [apply in_app_iff; now left | auto]. }
      specialize (IH H1 H2 H3 H4). clear H1 H2 H3 H4. revert IH.
      destruct (exec_hops tools ctx st hs _ _ w1) as [[res|e] w'].
      * intros IH. cbv beta iota in IH. destruct IH as (new & outs & Hw' & Hh & Ho & Hl & ->).
        exists (c0 (Ok o) :: new), (o :: outs).
        split; [rewrite Hw'; simpl; rewrite <- app_assoc; reflexivity|]. simpl. split; [now rewrite Hh|]. split; [now rewrite Ho|].
        split; [split; [apply Hc | exact Hl]|]. now rewrite <- app_assoc.
      * intros IH. cbv beta iota in IH.
        destruct IH as (i & h' & pre & outs & tail & Hi & Hw' & Hh & Ho & Hl & Htail).
        exists (S i), h', (c0 (Ok o) :: pre), (o :: outs), tail.
        split; [exact Hi|].
        split; [rewrite Hw'; simpl; rewrite <- app_assoc; reflexivity|]. simpl. split; [now rewrite Hh|]. split; [now rewrite Ho|].
        split; [split; [apply Hc | exact Hl] | exact Htail].
    + exists 0%nat, h, [], [], [c0 (Err e)]. simpl. split; [reflexivity|].
      split; [reflexivity|]. split; [reflexivity|]. split; [reflexivity|].
      split; [split; [apply Hc | exact I]|]. right. exists (c0 (Err e)). auto.
Qed.

Lemma firstn_snoc_nth {A} (l : list A) i x :
  nth_error l i = Some x -> (firstn i l ++ [x])%list = firstn (S i) l.
Proof.
  revert i. induction l as [|y l IH]; intros [|i] H; try discriminate.
  - injection H as ->. reflexivity.
  - simpl. f_equal. apply IH, H.
Qed.

(** Nothing but the [state] argument of an invocation reaches a mapping:
    a cell that is neither the run's [state] nor passed explicitly as
    ["state"] in a hop's params keeps its content. *)
Lemma exec_hops_frame tools ctx st hs R T w l :
  st <> l ->
  (forall h, In h hs -> od_get "state" (hop_params h) <> Some (VRef l)) ->
  nth l (w_heap (snd (exec_hops tools ctx st hs R T w))) [] = nth l (w_heap w) [].
Proof.
  intros Hst. revert R T w. induction hs as [|h hs IH]; intros R T w Hh; [reflexivity|].
  cbn [exec_hops]. unfold bind at 1, _resolve_tool.
  destruct (od_get (hop_tool h) tools) as [tool|]; [|reflexivity].
  unfold ret at 1, bind at 1, lift.
  destruct (dependency_outputs R (hop_depends_on h) []) as [D|e]; [|reflexivity].
  unfold ret at 1, bind at 1, invoke.
  assert (Hc : forall l', od_get "state" (_build_invocation_params tool h ctx D st)
                          = Some (VRef l') -> l' <> l).
  { intros l' E. rewrite build_invocation_params_get in E.
    destruct (od_get "state" (hop_params h)) eqn:E0.
    - injection E as ->. intros ->. exact (Hh h (or_introl eq_refl) E0).
    - simpl in E. destruct (declares tool "state"); [|discriminate].
      injection E as <-. exact Hst. }
  assert (IH' : forall R T w, nth l (w_heap (snd (exec_hops tools ctx st hs R T w))) [] =
                              nth l (w_heap w) [])
    by (intros; apply IH; intros; apply Hh; now right).
  clear IH.
  destruct (od_get "state" (_build_invocation_params tool h ctx D st)) as [v|] eqn:Es.
  - destruct v as [| | | | | |l'];
      try (destruct (tool_call _ _ _) as [[o|e] c']; cbv beta iota zeta;
           [rewrite IH'|]; reflexivity).
    pose proof (Hc l' eq_refl) as Hne.
    destruct (tool_call _ _ _) as [[o|e] c']; cbv beta iota zeta; [rewrite IH'|];
      cbn [w_heap snd]; apply nth_list_set_other; exact Hne.
  - destruct (tool_call _ _ _) as [[o|e] c']; cbv beta iota zeta; [rewrite IH'|]; reflexivity.
Qed.

Lemma resolve_state_ok sh w :
  exists st w1, resolve_state sh w = (Ok st, w1) /\ w_calls w1 = w_calls w.
Proof.
  unfold resolve_state, alloc_dict.
  destruct sh as [l|]; [destruct (nth l (w_heap w) [])|]; eauto.
Qed.

Lemma plan_ordered_ok hops p :
  MultiHopPlan_init hops = Ok p ->
  Permutation (ordered_hops p) hops /\ topo_ok [] (ordered_hops p) = true /\
  NoDup (map hop_name (ordered_hops p)).
Proof.
  intros H. destruct (plan_init_ok _ _ H) as (_ & Hs & Hnd & _).
  unfold _topological_sort in Hs. unfold ordered_hops.
  destruct (topo_loop_sound _ _ _ _ _ Hs) as (X & EX & HX & Ht).
  simpl in EX. subst X. split; [exact HX|]. split; [exact Ht|].
  apply (Permutation_NoDup (Permutation_map hop_name (Permutation_sym HX)) Hnd).
Qed.

(** [execute] on a constructed plan: the loop starts with empty [results]
    and [trace] on the resolved [state] cell, and satisfies [exec_hops_run]. *)
Lemma execute_plan_run hops p tools ctx sh w :
  MultiHopPlan_init hops = Ok p ->
  exists st w1,
    w_calls w1 = w_calls w /\
    execute tools p ctx sh w = exec_hops tools ctx st (ordered_hops p) [] [] w1 /\
    match exec_hops tools ctx st (ordered_hops p) [] [] w1 with
    | (Ok res, w') =>
        exists new outs,
          w_calls w' = (w_calls w ++ new)%list /\ map call_hop new = ordered_hops p /\
          map call_outcome new = map Ok outs /\ log_wired tools ctx st [] new /\
          res = {| or_results := record_results [] (ordered_hops p) outs;
                   or_trace := map trace_of (ordered_hops p) |}
    | (Err e, w') =>
        exists i h pre outs tail,
          nth_error (ordered_hops p) i = Some h /\ w_calls w' = (w_calls w ++ pre ++ tail)%list /\
          map call_hop pre = firstn i (ordered_hops p) /\ map call_outcome pre = map Ok outs /\
          log_wired tools ctx st [] (pre ++ tail) /\
          ((tail = [] /\ od_get (hop_tool h) tools = None /\
            e = ValueError ("Tool '" ++ hop_tool h ++ "' is not registered")) \/
           (exists c, tail = [c] /\ call_hop c = h /\ call_outcome c = Err e))
    end.
Proof.
  intros Hp. destruct (plan_ordered_ok _ _ Hp) as (_ & Ht & Hnd).
  destruct (resolve_state_ok sh w) as (st & w1 & Er & Hw1).
  exists st, w1. split; [exact Hw1|]. split.
  { unfold execute, bind. rewrite Er. reflexivity. }
  pose proof (exec_hops_run tools ctx st (ordered_hops p) [] [] w1 (w_calls w1) []
                (eq_sym (app_nil_r _)) Hnd Ht) as Hr.
  rewrite <- Hw1.
  destruct (exec_hops tools ctx st (ordered_hops p) [] [] w1) as [[res|e] w'].
  - destruct Hr as (new & outs & H1 & H2 & H3 & H4 & H5); [intros d hr Hd; discriminate|].
    exists new, outs. repeat split; auto.
  - destruct Hr as (i & h & pre & outs & tail & H1 & H2 & H3 & H4 & H5 & H6);
      [intros d hr Hd; discriminate|].
    exists i, h, pre, outs, tail. repeat split; auto.
Qed.

End FlowExec.

Module FlowClaims.
Import Flow FlowPlan FlowExec.

(** Claim C5. [MultiHopPlan(hops)] raises exactly when the hop list is
    empty, two hops share a name, some [depends_on] names an undeclared
    hop, or the hops admit no topological order; and a plan whose
    construction raised executes no hop: [run_plan] returns the error and
    leaves the world (mappings and invocation log) untouched. *)
Theorem plan_init_fails_iff (hops : list Hop) :
  (is_err (MultiHopPlan_init hops) = true <->
     hops = [] \/ ~ NoDup (map hop_name hops) \/
     (exists h d, In h hops /\ In d (hop_depends_on h) /\ ~ In d (map hop_name hops)) \/
     ~ (exists order, Permutation order hops /\ topo_ok [] order = true))
  /\ (forall e tools ctx shared_state w, MultiHopPlan_init hops = Err e ->
        run_plan tools hops ctx shared_state w = (Err e, w)).
Proof.
  split; [|intros e tools ctx sh w H; unfold run_plan; now rewrite H].
  destruct hops as [|h0 hs]; [split; [intros _; now left | reflexivity]|].
  remember (h0 :: hs) as hops eqn:Hh.
  assert (Hne : hops <> []) by (subst; discriminate).
  assert (Init : MultiHopPlan_init hops =
    if negb (Nat.eqb (length (nodup string_dec (map hop_name hops))) (length hops))
    then Err (ValueError "Hop names must be unique")
    else match find (fun hop => negb (subset (hop_depends_on hop) (map hop_name hops))) hops with
         | Some hop => Err (ValueError ("Hop '" ++ hop_name hop ++ "' depends on unknown hops"))
         | None => match _topological_sort hops with
                   | Ok ordered => Ok {| plan_hops := hops; plan_ordered := ordered |}
                   | Err e => Err e
                   end
         end) by (subst; reflexivity).
  rewrite Init. clear Init.
  assert (Hlen : length (map hop_name hops) = length hops) by apply length_map.
  destruct (Nat.eqb_spec (length (nodup string_dec (map hop_name hops))) (length hops)) as [Eq|Eq];
    simpl negb; cbv iota.
  2:{ split; [intros _ | reflexivity]. right. left. intros Hnd.
      apply nodup_length_iff in Hnd. congruence. }
  rewrite <- Hlen in Eq. apply nodup_length_iff in Eq.
  destruct (find _ hops) as [h|] eqn:F.
  - split; [intros _ | reflexivity]. right. right. left.
    apply find_some in F as [Hin Hf]. apply negb_true_iff, subset_false in Hf as (d & Hd & Hn).
    eauto.
  - pose proof (topological_sort_iff hops Eq) as Hs.
    destruct (_topological_sort hops) as [ord|e] eqn:T; simpl.
    + split; [discriminate|]. intros [H|[H|[H|H]]].
      * contradiction.
      * contradiction.
      * destruct H as (h & d & Hin & Hd & Hn).
        pose proof (find_none _ _ F h Hin) as Hf. apply negb_false_iff in Hf.
        exfalso. apply Hn. exact (proj1 (subset_spec _ _) Hf d Hd).
      * exfalso. apply H, Hs. reflexivity.
    + split; [intros _ | reflexivity]. right. right. right.
      intros Hex. apply Hs in Hex. discriminate.
Qed.

Lemma plan_init_fails_iff_witness :
  let hops := [ {| hop_name := "A"; hop_tool := "t"; hop_params := []; hop_depends_on := ["B"] |};
                {| hop_name := "B"; hop_tool := "t"; hop_params := []; hop_depends_on := ["A"] |} ] in
  (is_err (MultiHopPlan_init hops) = true <->
     hops = [] \/ ~ NoDup (map hop_name hops) \/
     (exists h d, In h hops /\ In d (hop_depends_on h) /\ ~ In d (map hop_name hops)) \/
     ~ (exists order, Permutation order hops /\ topo_ok [] order = true))
  /\ (forall e tools ctx shared_state w, MultiHopPlan_init hops = Err e ->
        run_plan tools hops ctx shared_state w = (Err e, w)).
Proof. intros hops. apply (plan_init_fails_iff hops). Defined.

(** Claim C6. A constructed plan's order is a topological order of its
    hops (each hop after every hop it depends on); it is the concatenation
    of the scan passes of [_topological_sort], and each pass lists its hops
    in declaration order; [A], [B (deps A)], [C (deps B, A)] order as
    [A, B, C]. *)
Theorem plan_order_topological_stable (hops : list Hop) (p : MultiHopPlan) :
  MultiHopPlan_init hops = Ok p ->
  Permutation (ordered_hops p) hops /\ topo_ok [] (ordered_hops p) = true /\
  (exists passes, topo_passes (S (length hops)) hops [] = Ok passes /\
     ordered_hops p = concat passes /\
     Forall (fun pass => pass <> [] /\ Subseq pass hops) passes) /\
  (let A := {| hop_name := "A"; hop_tool := "a"; hop_params := []; hop_depends_on := [] |} in
   let B := {| hop_name := "B"; hop_tool := "b"; hop_params := []; hop_depends_on := ["A"] |} in
   let C := {| hop_name := "C"; hop_tool := "c"; hop_params := []; hop_depends_on := ["B"; "A"] |} in
   MultiHopPlan_init [A; B; C] = Ok {| plan_hops := [A; B; C]; plan_ordered := [A; B; C] |}).
Proof.
  intros H. destruct (plan_init_ok _ _ H) as (_ & Hs & _ & _).
  unfold _topological_sort in Hs. unfold ordered_hops.
  destruct (topo_loop_sound _ _ _ _ _ Hs) as (X & EX & HX & Ht).
  simpl in EX. subst X.
  split; [exact HX|]. split; [exact Ht|]. split; [|reflexivity].
  rewrite topo_loop_passes in Hs.
  destruct (topo_passes _ _ _) as [ps|e] eqn:E; [|discriminate].
  injection Hs as Hs. exists ps. split; [reflexivity|]. split; [exact (eq_sym Hs)|].
  exact (topo_passes_subseq _ _ _ _ E).
Qed.

Lemma plan_order_topological_stable_witness :
  let hops := [ {| hop_name := "A"; hop_tool := "a"; hop_params := []; hop_depends_on := [] |};
                {| hop_name := "B"; hop_tool := "b"; hop_params := []; hop_depends_on := ["A"] |};
                {| hop_name := "C"; hop_tool := "c"; hop_params := []; hop_depends_on := ["B"; "A"] |} ] in
  let p := {| plan_hops := hops; plan_ordered := hops |} in
  MultiHopPlan_init hops = Ok p /\
  (Permutation (ordered_hops p) hops /\ topo_ok [] (ordered_hops p) = true /\
  (exists passes, topo_passes (S (length hops)) hops [] = Ok passes /\
     ordered_hops p = concat passes /\
     Forall (fun pass => pass <> [] /\ Subseq pass hops) passes) /\
  (let A := {| hop_name := "A"; hop_tool := "a"; hop_params := []; hop_depends_on := [] |} in
   let B := {| hop_name := "B"; hop_tool := "b"; hop_params := []; hop_depends_on := ["A"] |} in
   let C := {| hop_name := "C"; hop_tool := "c"; hop_params := []; hop_depends_on := ["B"; "A"] |} in
   MultiHopPlan_init [A; B; C] = Ok {| plan_hops := [A; B; C]; plan_ordered := [A; B; C] |})).
Proof.
  intros hops p. split; [reflexivity|].
  apply plan_order_topological_stable. reflexivity.
Defined.

(** Claim C7. [_build_invocation_params] keeps every key of the hop's
    params and adds [ctx], [dependencies] and [state] only when the tool's
    signature declares that name and the hop's params lack it.  In a run of
    a constructed plan, every invocation (log entry) gets these parameters
    for a [dependencies] mapping with exactly one key per name of the hop's
    [depends_on], bound to the output returned by the earlier invocation of
    the hop of that name in the same run; invocations follow the plan order
    and hop names are unique, so that earlier invocation is the only one. *)
Theorem invocation_params_injection (hops : list Hop) (p : MultiHopPlan)
    (tools : @OD ToolCallable) (ctx : Val) (shared_state : option nat) (w : World) :
  MultiHopPlan_init hops = Ok p ->
  (forall tool hop D st k,
     od_get k (_build_invocation_params tool hop ctx D st) =
     match od_get k (hop_params hop) with
     | Some v => Some v
     | None =>
         if String.eqb k "ctx" && declares tool "ctx" then Some ctx
         else if String.eqb k "dependencies" && declares tool "dependencies" then Some (VDict D)
         else if String.eqb k "state" && declares tool "state" then Some (VRef st)
         else None
     end) /\
  exists st new n,
    w_calls (snd (execute tools p ctx shared_state w)) = (w_calls w ++ new)%list /\
    map call_hop new = firstn n (ordered_hops p) /\
    NoDup (map hop_name (ordered_hops p)) /\
    log_wired tools ctx st [] new.
Proof.
  intros Hp. split; [intros; apply build_invocation_params_get|].
  destruct (plan_ordered_ok _ _ Hp) as (_ & _ & Hnd).
  destruct (execute_plan_run hops p tools ctx shared_state w Hp) as (st & w1 & _ & -> & Hr).
  destruct (exec_hops tools ctx st (ordered_hops p) [] [] w1) as [[res|e] w'].
  - destruct Hr as (new & outs & H1 & H2 & _ & H4 & _).
    exists st, new, (length (ordered_hops p)). rewrite firstn_all. auto.
  - destruct Hr as (i & h & pre & outs & tail & Hi & H2 & H3 & _ & H5 & H6).
    exists st, (pre ++ tail)%list.
    destruct H6 as [(-> & _ & _) | (c & -> & Hc & _)].
    + exists i. rewrite app_nil_r in *. auto.
    + exists (S i). rewrite map_app, H3. simpl. rewrite Hc, (firstn_snoc_nth _ _ _ Hi). auto.
Qed.

Lemma invocation_params_injection_witness :
  let hops := [ {| hop_name := "search"; hop_tool := "search";
                   hop_params := [("query", VStr "q")]; hop_depends_on := [] |};
                {| hop_name := "details"; hop_tool := "details";
                   hop_params := [("state", VNone)]; hop_depends_on := ["search"] |} ] in
  let p := {| plan_hops := hops; plan_ordered := hops |} in
  let tools := [ ("search", {| tool_signature := ["query"; "ctx"; "state"];
                               tool_call := fun _ st => (Ok (VStr "payload"), st) |});
                 ("details", {| tool_signature := ["dependencies"; "state"];
                                tool_call := fun params st =>
                                  match od_get "dependencies" params with
                                  | Some v => (Ok v, st)
                                  | None => (Ok VNone, st)
                                  end |}) ] in
  let w := {| w_heap := [[("k", VInt 1)]]; w_calls := [] |} in
  MultiHopPlan_init hops = Ok p /\
  ((forall tool hop D st k,
     od_get k (_build_invocation_params tool hop VNone D st) =
     match od_get k (hop_params hop) with
     | Some v => Some v
     | None =>
         if String.eqb k "ctx" && declares tool "ctx" then Some VNone
         else if String.eqb k "dependencies" && declares tool "dependencies" then Some (VDict D)
         else if String.eqb k "state" && declares tool "state" then Some (VRef st)
         else None
     end) /\
  exists st new n,
    w_calls (snd (execute tools p VNone (Some 0%nat) w)) = (w_calls w ++ new)%list /\
    map call_hop new = firstn n (ordered_hops p) /\
    NoDup (map hop_name (ordered_hops p)) /\
    log_wired tools VNone st [] new).
Proof.
  intros hops p tools w. split; [reflexivity|].
  exact (invocation_params_injection hops p tools VNone (Some 0%nat) w eq_refl).
Defined.

(** Claim C8. Executing a constructed plan either fails or returns a
    result.  On failure at the [i]-th hop of the plan order, the hops
    before it were invoked and returned normally, and then either the hop's
    tool is not registered ([ValueError], no further invocation) or its
    invocation raised exactly the returned exception; no later hop is
    invoked.  On success every hop was invoked once, in plan order, [trace]
    lists the hops in that order, and [results] has the hop names as keys,
    each bound to the [HopResult] of the output of that hop's invocation. *)
Theorem execute_failure_propagates (hops : list Hop) (p : MultiHopPlan)
    (tools : @OD ToolCallable) (ctx : Val) (shared_state : option nat) (w : World) :
  MultiHopPlan_init hops = Ok p ->
  match execute tools p ctx shared_state w with
  | (Ok res, w') =>
      exists new outs,
        w_calls w' = (w_calls w ++ new)%list /\
        map call_hop new = ordered_hops p /\ map call_outcome new = map Ok outs /\
        or_trace res = map trace_of (ordered_hops p) /\
        od_keys (or_results res) = map hop_name (ordered_hops p) /\
        (forall i h o, nth_error (ordered_hops p) i = Some h -> nth_error outs i = Some o ->
           od_get (hop_name h) (or_results res) = Some (hop_result_of h o))
  | (Err e, w') =>
      exists i h pre outs tail,
        nth_error (ordered_hops p) i = Some h /\
        w_calls w' = (w_calls w ++ pre ++ tail)%list /\
        map call_hop pre = firstn i (ordered_hops p) /\ map call_outcome pre = map Ok outs /\
        ((tail = [] /\ od_get (hop_tool h) tools = None /\
          e = ValueError ("Tool '" ++ hop_tool h ++ "' is not registered")) \/
         (exists c, tail = [c] /\ call_hop c = h /\ call_outcome c = Err e))
  end.
Proof.
  intros Hp. destruct (plan_ordered_ok _ _ Hp) as (_ & _ & Hnd).
  destruct (execute_plan_run hops p tools ctx shared_state w Hp) as (st & w1 & _ & -> & Hr).
  destruct (exec_hops tools ctx st (ordered_hops p) [] [] w1) as [[res|e] w'].
  - destruct Hr as (new & outs & H1 & H2 & H3 & _ & ->).
    assert (Hl : length outs = length (ordered_hops p)).
    { rewrite <- (length_map Ok outs), <- H3, <- H2, !length_map. reflexivity. }
    destruct (record_results_spec [] (ordered_hops p) outs Hl Hnd) as [Hk Hg].
    exists new, outs. simpl. repeat split; auto.
  - destruct Hr as (i & h & pre & outs & tail & H1 & H2 & H3 & H4 & _ & H6).
    exists i, h, pre, outs, tail. auto.
Qed.

Lemma execute_failure_propagates_witness :
  let hops := [ {| hop_name := "search"; hop_tool := "search";
                   hop_params := []; hop_depends_on := [] |};
                {| hop_name := "details"; hop_tool := "details";
                   hop_params := []; hop_depends_on := ["search"] |};
                {| hop_name := "summary"; hop_tool := "summary";
                   hop_params := []; hop_depends_on := ["details"] |} ] in
  let p := {| plan_hops := hops; plan_ordered := hops |} in
  let tools := [ ("search", {| tool_signature := ["state"];
                               tool_call := fun _ st => (Ok (VStr "payload"), st) |});
                 ("details", {| tool_signature := ["dependencies"];
                                tool_call := fun _ st => (Err (ToolError (VStr "fetch failed")), st) |});
                 ("summary", {| tool_signature := ["dependencies"];
                                tool_call := fun _ st => (Ok VNone, st) |}) ] in
  let w := {| w_heap := []; w_calls := [] |} in
  MultiHopPlan_init hops = Ok p /\
  match execute tools p VNone None w with
  | (Ok res, w') =>
      exists new outs,
        w_calls w' = (w_calls w ++ new)%list /\
        map call_hop new = ordered_hops p /\ map call_outcome new = map Ok outs /\
        or_trace res = map trace_of (ordered_hops p) /\
        od_keys (or_results res) = map hop_name (ordered_hops p) /\
        (forall i h o, nth_error (ordered_hops p) i = Some h -> nth_error outs i = Some o ->
           od_get (hop_name h) (or_results res) = Some (hop_result_of h o))
  | (Err e, w') =>
      exists i h pre outs tail,
        nth_error (ordered_hops p) i = Some h /\
        w_calls w' = (w_calls w ++ pre ++ tail)%list /\
        map call_hop pre = firstn i (ordered_hops p) /\ map call_outcome pre = map Ok outs /\
        ((tail = [] /\ od_get (hop_tool h) tools = None /\
          e = ValueError ("Tool '" ++ hop_tool h ++ "' is not registered")) \/
         (exists c, tail = [c] /\ call_hop c = h /\ call_outcome c = Err e))
  end.
Proof.
  intros hops p tools w. split; [reflexivity|].
  exact (execute_failure_propagates hops p tools VNone None w eq_refl).
Defined.

(** Claim C10. [state = shared_state or {}]: when the caller's mapping
    (cell [l]) is empty, the run uses a fresh cell (the next free one,
    which is not [l]), and unless a hop passes the caller's mapping
    explicitly as its ["state"] param, the caller's mapping is still empty
    after [execute], whether the run succeeded or raised; a non-empty
    caller mapping is the run's [state] itself. *)
Theorem execute_empty_state_not_shared (tools : @OD ToolCallable) (p : MultiHopPlan)
    (ctx : Val) (l : nat) (w : World) :
  (l < length (w_heap w))%nat ->
  (nth l (w_heap w) [] = [] ->
     execute tools p ctx (Some l) w =
       exec_hops tools ctx (length (w_heap w)) (ordered_hops p) [] []
         {| w_heap := (w_heap w ++ [[]])%list; w_calls := w_calls w |} /\
     length (w_heap w) <> l /\
     ((forall h, In h (ordered_hops p) -> od_get "state" (hop_params h) <> Some (VRef l)) ->
        nth l (w_heap (snd (execute tools p ctx (Some l) w))) [] = [])) /\
  (nth l (w_heap w) [] <> [] ->
     execute tools p ctx (Some l) w = exec_hops tools ctx l (ordered_hops p) [] [] w).
Proof.
  intros Hl. unfold execute, bind, resolve_state.
  destruct (nth l (w_heap w) []) as [|x xs] eqn:E.
  - split; [intros _ | intros H; now destruct H].
    unfold alloc_dict. split; [reflexivity|]. split; [lia|].
    intros Hh. rewrite exec_hops_frame by (lia || exact Hh). simpl.
    rewrite app_nth1 by exact Hl. exact E.
  - split; [discriminate | intros _; reflexivity].
Qed.

Lemma execute_empty_state_not_shared_witness :
  let tools := [ ("search", {| tool_signature := ["state"];
                               tool_call := fun _ st =>
                                 (Ok VNone, (st ++ [("search_payload", VStr "r")])%list) |}) ] in
  let p := {| plan_hops := [ {| hop_name := "search"; hop_tool := "search";
                                hop_params := []; hop_depends_on := [] |} ];
              plan_ordered := [ {| hop_name := "search"; hop_tool := "search";
                                   hop_params := []; hop_depends_on := [] |} ] |} in
  let w := {| w_heap := [[]]; w_calls := [] |} in
  (0 < length (w_heap w))%nat /\
  ((nth 0 (w_heap w) [] = [] ->
     execute tools p VNone (Some 0%nat) w =
       exec_hops tools VNone (length (w_heap w)) (ordered_hops p) [] []
         {| w_heap := (w_heap w ++ [[]])%list; w_calls := w_calls w |} /\
     length (w_heap w) <> 0%nat /\
     ((forall h, In h (ordered_hops p) -> od_get "state" (hop_params h) <> Some (VRef 0)) ->
        nth 0 (w_heap (snd (execute tools p VNone (Some 0%nat) w))) [] = [])) /\
  (nth 0 (w_heap w) [] <> [] ->
     execute tools p VNone (Some 0%nat) w = exec_hops tools VNone 0 (ordered_hops p) [] [] w)).
Proof.
  intros tools p w. split; [simpl; lia|].
  apply (execute_empty_state_not_shared tools p VNone 0 w). simpl. lia.
Defined.

(** The research workflow's shape on concrete operations: the operation
    of [details] receives the output of [search] under
    ["dependencies"]; an empty caller mapping stays empty while the hop's
    write lands in the fresh mapping, and a non-empty one receives it. *)
Example execute_research_example :
  let search := {| hop_name := "search"; hop_tool := "search";
                   hop_params := []; hop_depends_on := [] |} in
  let details := {| hop_name := "details"; hop_tool := "details";
                    hop_params := []; hop_depends_on := ["search"] |} in
  let p := {| plan_hops := [search; details]; plan_ordered := [search; details] |} in
  let tools := [ ("search", {| tool_signature := ["state"];
                               tool_call := fun _ st =>
                                 (Ok (VStr "payload"), (st ++ [("search_payload", VStr "payload")])%list) |});
                 ("details", {| tool_signature := ["dependencies"];
                                tool_call := fun _ st => (Ok VNone, st) |}) ] in
  map call_params (w_calls (snd (execute tools p VNone (Some 0%nat)
                                   {| w_heap := [[]]; w_calls := [] |}))) =
    [[("state", VRef 1)]; [("dependencies", VDict [("search", VStr "payload")])]] /\
  w_heap (snd (execute tools p VNone (Some 0%nat) {| w_heap := [[]]; w_calls := [] |})) =
    [[]; [("search_payload", VStr "payload")]] /\
  w_heap (snd (execute tools p VNone (Some 0%nat)
                 {| w_heap := [[("detail_count", VInt 3)]]; w_calls := [] |})) =
    [[("detail_count", VInt 3); ("search_payload", VStr "payload")]].
Proof. vm_compute. repeat split; reflexivity. Qed.

End FlowClaims.

(* ================================================================== *)
(** ** Further properties of the cache: round trip, capacity edges,
    [mark_domain_stale] *)

Module CacheExtras.

Lemma lastn_snoc {A} n (l : list A) x :
  (0 < n)%nat -> lastn n (l ++ [x])%list = (lastn (n - 1) l ++ [x])%list.
Proof.
  intros Hn. unfold lastn. rewrite length_app, skipn_app. simpl length.
  replace (length l + 1 - n - length l)%nat with 0%nat by lia.
  now replace (length l + 1 - n)%nat with (length l - (n - 1))%nat by lia.
Qed.

Lemma In_lastn {A} n (l : list A) x : In x (lastn n l) -> In x l.
Proof. intros H. rewrite (lastn_split n l). apply in_or_app. now right. Qed.

Section Store.
Context {V : Type}.
Implicit Types (s : @OD V) (k : string) (v : V).

Lemma od_delete_app_last k v s :
  ~ In k (od_keys s) -> od_delete k (s ++ [(k, v)])%list = s.
Proof.
  induction s as [|[k' v'] s IH]; simpl; intros Hn.
  - now rewrite String.eqb_refl.
  - destruct (String.eqb_spec k' k); [subst; tauto|]. simpl. f_equal. apply IH. tauto.
Qed.

(** Moving the last key to the end changes nothing. *)
Lemma od_move_to_end_last k v s :
  ~ In k (od_keys s) -> od_move_to_end k (s ++ [(k, v)])%list = (s ++ [(k, v)])%list.
Proof.
  intros Hn. unfold od_move_to_end. rewrite (od_get_app_notin k v s Hn).
  now rewrite od_delete_app_last.
Qed.

Lemma filter_true_id {A} (l : list A) : filter (fun _ => true) l = l.
Proof. induction l as [|x l IH]; simpl; congruence. Qed.

Lemma filter_idem {A} (f : A -> bool) (l : list A) : filter f (filter f l) = filter f l.
Proof.
  induction l as [|x l IH]; simpl; [reflexivity|].
  destruct (f x) eqn:E; simpl; [rewrite E|]; congruence.
Qed.

(** Popping the keys [ks] one after the other. *)
Lemma fold_delete_filter ks s :
  fold_left (fun s k => od_delete k s) ks s
  = filter (fun p => negb (existsb (String.eqb (fst p)) ks)) s.
Proof.
  revert s. induction ks as [|k ks IH]; intros s; simpl.
  - symmetry. apply filter_true_id.
  - rewrite IH. unfold od_delete.
    induction s as [|[k' v] s IHs]; simpl; [reflexivity|].
    destruct (String.eqb k' k); simpl; [exact IHs|].
    destruct (existsb (String.eqb k') ks); simpl; [exact IHs | now rewrite IHs].
Qed.

Lemma NoDup_od_keys_filter (f : string * V -> bool) s :
  NoDup (od_keys s) -> NoDup (od_keys (filter f s)).
Proof.
  unfold od_keys. induction s as [|p s IH]; simpl; intros Hnd; [constructor|].
  inversion Hnd as [|? ? Hn Hnd']; subst.
  destruct (f p); simpl; [|now apply IH]. constructor; [|now apply IH].
  intros Hin. apply Hn. apply in_map_iff in Hin as (q & Hq & Hin).
  apply filter_In in Hin as [Hin _]. rewrite <- Hq. now apply in_map.
Qed.

Lemma od_get_filter_keep (f : string * V -> bool) k v s :
  od_get k s = Some v -> f (k, v) = true -> od_get k (filter f s) = Some v.
Proof.
  induction s as [|[k' v'] s IH]; simpl; [discriminate|].
  destruct (String.eqb_spec k' k) as [<- | Hne].
  - intros [= <-] Hf. rewrite Hf. simpl. now rewrite String.eqb_refl.
  - intros Hg Hf. destruct (f (k', v')); simpl; [|now apply IH].
    apply String.eqb_neq in Hne. rewrite Hne. now apply IH.
Qed.

End Store.

Section CacheP.
Context {P : Type}.

(** After [set] into a cache of positive capacity the key's new entry is
    the last one, and the key occurs nowhere else. *)
Lemma set_store_last (c c' : SemanticCache P) key intent sig payload now :
  (0 < sc_max_entries c)%Z -> set c key intent sig payload now = Some c' ->
  exists s, sc_store c' = (s ++ [(key, new_entry key intent sig payload now)])%list /\
            ~ In key (od_keys s) /\ sc_max_entries c' = sc_max_entries c.
Proof.
  intros Hpos Hs. rewrite set_spec in Hs by lia. injection Hs as <-. simpl.
  rewrite lastn_snoc by lia.
  exists (lastn (Z.to_nat (sc_max_entries c) - 1) (od_delete key (sc_store c))).
  split; [reflexivity|]. split; [|reflexivity].
  rewrite od_keys_lastn, od_keys_delete. intros Hin.
  apply In_lastn, remove_key_In in Hin. tauto.
Qed.

Lemma evict_loop_negative {V} m (s : @OD V) : (m < 0)%Z -> evict_loop m s = None.
Proof.
  intros Hm. induction s as [|x s IH]; cbn [evict_loop].
  - destruct (Z.leb_spec (Z.of_nat (length (@nil (string * V)))) m); [simpl in *; lia | reflexivity].
  - destruct (Z.leb_spec (Z.of_nat (length (x :: s))) m); [lia | exact IH].
Qed.

Lemma stale_keys_keys (doms : P -> list string) l (s : @OD (CacheEntry P)) k : In k (stale_keys doms l s) -> In k (od_keys s).
Proof.
  induction s as [|[k' e] s IH]; cbn [stale_keys]; [tauto|].
  destruct (entry_has_domain doms l e); simpl; intros H; [destruct H as [<- | H]; [now left|] |]; right; now apply IH.
Qed.

Lemma stale_keys_filter (doms : P -> list string) l (s : @OD (CacheEntry P)) :
  NoDup (od_keys s) ->
  filter (fun p => negb (existsb (String.eqb (fst p)) (stale_keys doms l s))) s
  = filter (fun p => negb (entry_has_domain doms l (snd p))) s.
Proof.
  induction s as [|[k e] s IH]; intros Hnd; [reflexivity|].
  inversion Hnd as [|? ? Hk Hnd']; subst.
  assert (Hs : existsb (String.eqb k) (stale_keys doms l s) = false).
  { apply not_true_iff_false. intros Hx. apply existsb_exists in Hx as (x & Hx & E).
    apply String.eqb_eq in E. subst x. exact (Hk (stale_keys_keys _ _ _ _ Hx)). }
  cbn [stale_keys]. destruct (entry_has_domain doms l e) eqn:Ee.
  - cbn [filter fst snd existsb]. rewrite String.eqb_refl, Ee. simpl.
    rewrite <- (IH Hnd'). apply filter_ext_in. intros [k' v'] Hin. simpl.
    assert (Hne : k' <> k) by (intros ->; apply Hk; exact (in_map fst _ _ Hin)).
    apply String.eqb_neq in Hne. now rewrite Hne.
  - cbn [filter fst snd]. rewrite Hs, Ee. simpl. f_equal. exact (IH Hnd').
Qed.

(** [mark_domain_stale] keeps, in order, the entries none of whose result
    domains contains the lowered domain. *)
Lemma mark_domain_stale_filter (doms : P -> list string) (c : SemanticCache P) domain :
  NoDup (cache_keys c) ->
  mark_domain_stale doms c domain =
  with_store c (filter (fun p => negb (entry_has_domain doms (py_lower domain) (snd p)))
                       (sc_store c)).
Proof.
  intros Hnd. unfold mark_domain_stale. rewrite fold_delete_filter.
  now rewrite stale_keys_filter.
Qed.

Lemma py_in_empty hay : py_in "" hay = true.
Proof. destruct hay; reflexivity. Qed.

Lemma entry_has_domain_empty (doms : P -> list string) (e : CacheEntry P) :
  entry_has_domain doms "" e = match doms (ce_payload e) with [] => false | _ :: _ => true end.
Proof.
  unfold entry_has_domain. destruct (doms (ce_payload e)); [reflexivity|].
  simpl. now rewrite py_in_empty.
Qed.

(** [get] right after [set] of the same key. *)
Lemma get_after_set (c c' : SemanticCache P) key intent sig payload now intent' now1 now2 :
  (0 < sc_max_entries c)%Z -> set c key intent sig payload now = Some c' ->
  get c' key intent' now1 now2 =
  (Some {| cl_payload := payload; cl_age_seconds := now2 - now;
           cl_fresh := Qle_bool (now1 - now) (inject_Z (_intent_ttl intent')) |}, c').
Proof.
  intros Hpos Hs. destruct (set_store_last _ _ _ _ _ _ _ Hpos Hs) as (s & Hst & Hn & _).
  destruct c' as [st m]. simpl in Hst. subst st.
  unfold get. cbn [sc_store]. rewrite (od_get_app_notin _ _ _ Hn).
  unfold age_seconds. cbn [ce_created_at new_entry ce_payload].
  destruct (Qle_bool (now1 - now) (inject_Z (_intent_ttl intent'))); [|reflexivity].
  unfold with_store. cbn [sc_store sc_max_entries]. now rewrite od_move_to_end_last.
Qed.

(** The insert/lookup round trip: after [set] of [key] into a cache of
    capacity at least 1, [get] of the same key, under any intent, returns
    the payload just stored with age [now2 - now], reports it fresh exactly
    when [now1 - now] is within that intent's TTL, and leaves the cache as
    [set] left it: the key is already the most recently used. *)
Theorem set_then_get_roundtrip (c c' : SemanticCache P) key intent sig payload now
    intent' now1 now2 :
  (0 < sc_max_entries c)%Z -> set c key intent sig payload now = Some c' ->
  get c' key intent' now1 now2 =
  (Some {| cl_payload := payload; cl_age_seconds := now2 - now;
           cl_fresh := Qle_bool (now1 - now) (inject_Z (_intent_ttl intent')) |}, c').
Proof. apply get_after_set. Qed.

(** Capacity edges of [set]: with [max_entries = 0] every [set] succeeds
    but leaves the store empty, so every later [get] misses; with
    [max_entries < 0] every [set] raises (the [KeyError] of [popitem] on
    the emptied store). *)
Theorem set_capacity_edges (c : SemanticCache P) key intent sig payload now :
  (sc_max_entries c = 0%Z ->
     exists c', set c key intent sig payload now = Some c' /\ sc_store c' = [] /\
       sc_max_entries c' = 0%Z /\
       (forall k i now1 now2, get c' k i now1 now2 = (None, c'))) /\
  ((sc_max_entries c < 0)%Z -> set c key intent sig payload now = None).
Proof.
  split.
  - intros H0. rewrite set_spec by lia. eexists. split; [reflexivity|].
    rewrite H0. unfold lastn. simpl. rewrite Nat.sub_0_r, skipn_all.
    split; [reflexivity|]. split; [exact H0|]. intros k i now1 now2. reflexivity.
  - intros Hneg. unfold set, _evict_if_needed. cbn [sc_max_entries with_store].
    now rewrite evict_loop_negative.
Qed.

(** [mark_domain_stale] removes exactly the entries one of whose results
    has a domain that, lowercased, contains the lowercased [domain]; the
    other entries stay, in their recency order, and the capacity is kept.
    Marking the same domain again changes nothing. *)
Theorem mark_domain_stale_spec (doms : P -> list string) (c : SemanticCache P) domain :
  NoDup (cache_keys c) ->
  mark_domain_stale doms c domain =
    with_store c (filter (fun p => negb (entry_has_domain doms (py_lower domain) (snd p)))
                         (sc_store c)) /\
  mark_domain_stale doms (mark_domain_stale doms c domain) domain
    = mark_domain_stale doms c domain.
Proof.
  intros Hnd. pose proof (mark_domain_stale_filter doms c domain Hnd) as E.
  split; [exact E|]. rewrite E at 2.
  rewrite mark_domain_stale_filter.
  - rewrite E. unfold with_store. cbn [sc_store sc_max_entries]. now rewrite filter_idem.
  - rewrite E. unfold cache_keys, with_store. cbn [sc_store].
    now apply NoDup_od_keys_filter.
Qed.

(** The edges of [mark_domain_stale]: the empty domain is contained in
    every domain string, so it removes every entry with at least one
    result and keeps exactly those without results; and an entry whose
    payload has no results is never removed, whatever the domain. *)
Theorem mark_domain_stale_edges (doms : P -> list string) (c : SemanticCache P) domain :
  NoDup (cache_keys c) ->
  sc_store (mark_domain_stale doms c "") =
    filter (fun p => match doms (ce_payload (snd p)) with [] => true | _ :: _ => false end)
           (sc_store c) /\
  (forall key e, od_get key (sc_store c) = Some e -> doms (ce_payload e) = [] ->
     od_get key (sc_store (mark_domain_stale doms c domain)) = Some e).
Proof.
  intros Hnd. split.
  - rewrite mark_domain_stale_filter by exact Hnd. unfold with_store. cbn [sc_store].
    apply filter_ext. intros [k e]. cbn [snd py_lower].
    rewrite entry_has_domain_empty. now destruct (doms (ce_payload e)).
  - intros key e Hg He. rewrite mark_domain_stale_filter by exact Hnd.
    unfold with_store. cbn [sc_store]. apply od_get_filter_keep; [exact Hg|].
    cbn [snd]. unfold entry_has_domain. now rewrite He.
Qed.

End CacheP.

(** The key a request is stored under splits back, at ["|"], into the
    nine fields it was built from, provided the free-text fields contain
    no ["|"]. *)
Theorem make_key_split_roundtrip (a : KeyArgs) :
  key_args_ok a = true -> py_split_bar (make_key a) = make_key_parts a.
Proof.
  intros H. unfold make_key. apply py_split_bar_join; [discriminate | now apply make_key_parts_ok].
Qed.

Lemma set_then_get_roundtrip_witness :
  exists c', set (@new_cache nat 2) "k" News "sig" 7%nat 0%Q = Some c' /\
    get c' "k" News 900%Q 901%Q =
    (Some {| cl_payload := 7%nat; cl_age_seconds := 901%Q - 0%Q; cl_fresh := true |}, c').
Proof.
  eexists. split; [reflexivity|].
  apply (set_then_get_roundtrip (@new_cache nat 2) _ "k" News "sig" 7%nat 0%Q News 900%Q 901%Q);
    reflexivity.
Defined.

Lemma set_capacity_edges_witness :
  (exists c', set (@new_cache nat 0) "k" News "sig" 7%nat 0%Q = Some c' /\ sc_store c' = [] /\
     sc_max_entries c' = 0%Z /\ (forall k i now1 now2, get c' k i now1 now2 = (None, c'))) /\
  set (@new_cache nat (-1)) "k" News "sig" 7%nat 0%Q = None.
Proof.
  split.
  - apply (proj1 (set_capacity_edges (@new_cache nat 0) "k" News "sig" 7%nat 0%Q)). reflexivity.
  - apply (proj2 (set_capacity_edges (@new_cache nat (-1)) "k" News "sig" 7%nat 0%Q)). reflexivity.
Defined.

Lemma mark_domain_stale_spec_witness :
  let c : SemanticCache (list string) :=
    {| sc_store := [("k1", new_entry "k1" News "s" ["www.Example.com"] 0%Q);
                    ("k2", new_entry "k2" General "s" ["docs.python.org"] 0%Q);
                    ("k3", new_entry "k3" General "s" [] 0%Q)];
       sc_max_entries := 256 |} in
  NoDup (cache_keys c) /\
  mark_domain_stale (fun p => p) c "EXAMPLE.com" =
    with_store c [("k2", new_entry "k2" General "s" ["docs.python.org"] 0%Q);
                  ("k3", new_entry "k3" General "s" [] 0%Q)].
Proof.
  intros c. assert (Hnd : NoDup (cache_keys c)) by (repeat constructor; simpl; intuition discriminate).
  split; [exact Hnd|].
  rewrite (proj1 (mark_domain_stale_spec (fun p => p) c "EXAMPLE.com" Hnd)). reflexivity.
Defined.

Lemma mark_domain_stale_edges_witness :
  let c : SemanticCache (list string) :=
    {| sc_store := [("k1", new_entry "k1" News "s" ["www.Example.com"] 0%Q);
                    ("k3", new_entry "k3" General "s" [] 0%Q)];
       sc_max_entries := 256 |} in
  NoDup (cache_keys c) /\
  sc_store (mark_domain_stale (fun p => p) c "") = [("k3", new_entry "k3" General "s" [] 0%Q)] /\
  od_get "k3" (sc_store (mark_domain_stale (fun p => p) c "org"))
    = Some (new_entry "k3" General "s" [] 0%Q).
Proof.
  intros c. assert (Hnd : NoDup (cache_keys c)) by (repeat constructor; simpl; intuition discriminate).
  destruct (mark_domain_stale_edges (fun p => p) c "org" Hnd) as [H1 H2].
  split; [exact Hnd|]. split; [rewrite H1; reflexivity|].
  apply H2; reflexivity.
Defined.

Lemma make_key_split_roundtrip_witness :
  let a := {| ka_intent := Technical; ka_embedding_signature := "3f2a"; ka_count := 10%Z;
              ka_offset := 0%Z; ka_page := 1%Z; ka_site := Some "docs.python.org";
              ka_time_period := None; ka_related := true; ka_related_count := Some 5%Z |} in
  key_args_ok a = true /\
  py_split_bar (make_key a) =
    ["technical"; "3f2a"; "10"; "0"; "1"; "docs.python.org"; "*"; "related"; "5"].
Proof.
  intros a. split; [reflexivity|]. rewrite (make_key_split_roundtrip a eq_refl). reflexivity.
Defined.

End CacheExtras.

(* ================================================================== *)
(** ** Further properties of [search.py]: [_merge_results],
    [_summarize_html], the related queries, repeated searches *)

Module SearchExtras.
Import CacheExtras.

Lemma existsb_eqb_false u seen : existsb (String.eqb u) seen = false <-> ~ In u seen.
Proof.
  rewrite <- not_true_iff_false, existsb_exists. split.
  - intros H Hin. apply H. exists u. split; [exact Hin | apply String.eqb_refl].
  - intros H (x & Hx & E). apply String.eqb_eq in E. subst. tauto.
Qed.

Lemma dedup_by_url_from_fresh seen rs :
  NoDup (map sr_url (dedup_by_url_from seen rs)) /\
  (forall r, In r (dedup_by_url_from seen rs) -> ~ In (sr_url r) seen).
Proof.
  revert seen. induction rs as [|x rs IH]; intros seen; simpl; [split; [constructor | tauto]|].
  destruct (existsb (String.eqb (sr_url x)) seen) eqn:E; [apply IH|].
  apply existsb_eqb_false in E. destruct (IH (sr_url x :: seen)) as [H1 H2].
  split.
  - simpl. constructor; [|exact H1]. intros Hin. apply in_map_iff in Hin as (r & Hr & Hin).
    apply (H2 r Hin). rewrite Hr. now left.
  - intros r [<- | Hin]; [exact E|]. intros Hs. apply (H2 r Hin). now right.
Qed.

Lemma dedup_by_url_from_complete seen rs r :
  In r rs -> ~ In (sr_url r) seen ->
  exists r', In r' (dedup_by_url_from seen rs) /\ sr_url r' = sr_url r.
Proof.
  revert seen. induction rs as [|x rs IH]; intros seen; simpl; [tauto|].
  intros Hin Hn. destruct (existsb (String.eqb (sr_url x)) seen) eqn:E.
  - destruct Hin as [<- | Hin].
    + apply existsb_eqb_false in Hn. congruence.
    + exact (IH seen Hin Hn).
  - destruct (String.eqb_spec (sr_url x) (sr_url r)) as [Heq | Hne].
    + exists x. split; [now left | exact Heq].
    + destruct Hin as [<- | Hin]; [congruence|].
      destruct (IH (sr_url x :: seen) Hin) as (r' & H1 & H2).
      * intros [H | H]; [congruence | tauto].
      * exists r'. split; [now right | exact H2].
Qed.

Lemma dedup_by_url_from_first seen rs r :
  In r (dedup_by_url_from seen rs) ->
  exists pre post, rs = (pre ++ r :: post)%list /\
    forall r0, In r0 pre -> sr_url r0 <> sr_url r.
Proof.
  revert seen. induction rs as [|x rs IH]; intros seen; simpl; [tauto|].
  destruct (existsb (String.eqb (sr_url x)) seen) eqn:E.
  - intros Hin. destruct (IH seen Hin) as (pre & post & Hrs & Hpre).
    exists (x :: pre), post. split; [now rewrite Hrs|]. intros r0 [<- | H0]; [|exact (Hpre r0 H0)].
    intros Heq. apply (proj2 (dedup_by_url_from_fresh seen rs) r Hin).
    rewrite <- Heq. apply existsb_exists in E as (y & Hy & Ey).
    apply String.eqb_eq in Ey. now subst.
  - intros [<- | Hin]; [exists [], rs; split; [reflexivity | simpl; tauto]|].
    destruct (IH (sr_url x :: seen) Hin) as (pre & post & Hrs & Hpre).
    exists (x :: pre), post. split; [now rewrite Hrs|]. intros r0 [<- | H0]; [|exact (Hpre r0 H0)].
    intros Heq. apply (proj2 (dedup_by_url_from_fresh (sr_url x :: seen) rs) r Hin).
    rewrite <- Heq. now left.
Qed.

Lemma dedup_by_url_from_id seen l :
  NoDup (map sr_url l) -> (forall r, In r l -> ~ In (sr_url r) seen) ->
  dedup_by_url_from seen l = l.
Proof.
  revert seen. induction l as [|x l IH]; intros seen Hnd Hs; simpl; [reflexivity|].
  inversion Hnd as [|? ? Hx Hnd']; subst.
  rewrite (proj2 (existsb_eqb_false _ _) (Hs x (or_introl eq_refl))). f_equal.
  apply IH; [exact Hnd'|]. intros r Hr [E | E].
  - apply Hx. rewrite E. now apply in_map.
  - exact (Hs r (or_intror Hr) E).
Qed.

Lemma filter_split {A} (f : A -> bool) l pre' r post' :
  filter f l = (pre' ++ r :: post')%list ->
  exists pre post, l = (pre ++ r :: post)%list /\ filter f pre = pre'.
Proof.
  revert pre'. induction l as [|x l IH]; intros pre' H; simpl in H.
  - destruct pre'; discriminate.
  - destruct (f x) eqn:Fx.
    + destruct pre' as [|y pre''].
      * injection H as -> _. exists [], l. split; reflexivity.
      * injection H as -> H. destruct (IH _ H) as (pre & post & -> & Hf).
        exists (y :: pre), post. split; [reflexivity|]. simpl. now rewrite Fx, Hf.
    + destruct (IH _ H) as (pre & post & -> & Hf).
      exists (x :: pre), post. split; [reflexivity|]. simpl. now rewrite Fx.
Qed.

Lemma url_truthy_false r : url_truthy r = false -> sr_url r = "".
Proof. unfold url_truthy. intros H. apply negb_false_iff, String.eqb_eq in H. exact H. Qed.

(** [_merge_results] keeps, for each truthy URL of [primary + secondary],
    exactly one record: the first record carrying that URL.  So the URLs
    of the output are truthy and pairwise distinct, every truthy URL of
    the input is represented, and merging the output again (with nothing)
    gives it back unchanged. *)
Theorem merge_results_first_per_url (primary secondary : list SearchResult) :
  let merged := _merge_results primary secondary in
  NoDup (map sr_url merged) /\
  (forall r, In r merged -> url_truthy r = true /\
     exists pre post, (primary ++ secondary)%list = (pre ++ r :: post)%list /\
       forall r0, In r0 pre -> sr_url r0 <> sr_url r) /\
  (forall r, In r (primary ++ secondary) -> url_truthy r = true ->
     exists r', In r' merged /\ sr_url r' = sr_url r) /\
  _merge_results merged [] = merged.
Proof.
  intros merged. unfold merged. rewrite merge_results_eq. unfold dedup_by_url.
  set (F := filter url_truthy (primary ++ secondary)).
  assert (HT : forall r, In r (dedup_by_url_from [] F) -> url_truthy r = true).
  { intros r Hr. apply dedup_by_url_from_incl in Hr. unfold F in Hr.
    now apply filter_In in Hr as [_ Hr]. }
  destruct (dedup_by_url_from_fresh [] F) as [Hnd _].
  split; [exact Hnd|]. split; [|split].
  - intros r Hr. split; [exact (HT r Hr)|].
    destruct (dedup_by_url_from_first [] F r Hr) as (pre' & post' & HF & Hpre').
    destruct (filter_split url_truthy (primary ++ secondary) pre' r post' HF)
      as (pre & post & Hl & Hf).
    exists pre, post. split; [exact Hl|]. intros r0 H0.
    destruct (url_truthy r0) eqn:T0.
    + apply Hpre'. rewrite <- Hf. now apply filter_In.
    + rewrite (url_truthy_false r0 T0). intros E. pose proof (HT r Hr) as Tr.
      unfold url_truthy in Tr. rewrite <- E in Tr. discriminate.
  - intros r Hin Ht. apply dedup_by_url_from_complete; [|simpl; tauto].
    unfold F. now apply filter_In.
  - rewrite merge_results_eq, app_nil_r. unfold dedup_by_url.
    rewrite (forallb_filter_id url_truthy _).
    + apply dedup_by_url_from_id; [exact Hnd | simpl; tauto].
    + apply forallb_forall. exact HT.
Qed.

Lemma merge_results_first_per_url_witness :
  let a := {| sr_url := "https://a.example"; sr_title := "A"; sr_snippet := "fresh" |} in
  let a' := {| sr_url := "https://a.example"; sr_title := "A"; sr_snippet := "cached" |} in
  let b := {| sr_url := "https://b.example"; sr_title := "B"; sr_snippet := "" |} in
  let z := {| sr_url := ""; sr_title := "no url"; sr_snippet := "" |} in
  _merge_results [a; z] [a'; b] = [a; b] /\
  _merge_results (_merge_results [a; z] [a'; b]) [] = _merge_results [a; z] [a'; b].
Proof.
  intros a a' b z. split; [reflexivity|].
  exact (proj2 (proj2 (proj2 (merge_results_first_per_url [a; z] [a'; b])))).
Defined.

(** *** [_summarize_html] *)

Definition nonspace_word (w : list Z) : Prop :=
  w <> [] /\ forall c, In c w -> py_isspace c = false.

Lemma split_ws_from_spec cur s :
  (forall c, In c cur -> py_isspace c = false) ->
  Forall nonspace_word (split_ws_from cur s) /\
  concat (split_ws_from cur s) = (cur ++ filter (fun c => negb (py_isspace c)) s)%list.
Proof.
  revert cur. induction s as [|c s IH]; intros cur Hcur; cbn [split_ws_from].
  - destruct cur as [|x cur]; simpl.
    + split; [constructor | reflexivity].
    + split; [constructor; [split; [discriminate | exact Hcur] | constructor]|].
      now rewrite !app_nil_r.
  - destruct (py_isspace c) eqn:Ec.
    + cbn [filter]. rewrite Ec. simpl negb. cbv iota.
      destruct (IH [] ltac:(simpl; tauto)) as [H1 H2].
      destruct cur as [|x cur].
      * split; [exact H1 | exact H2].
      * split; [constructor; [split; [discriminate | exact Hcur] | exact H1]|].
        simpl. rewrite H2. reflexivity.
    + destruct (IH (cur ++ [c])%list) as [H1 H2].
      { intros x Hx. apply in_app_iff in Hx as [Hx | [<- | []]]; [exact (Hcur x Hx) | exact Ec]. }
      split; [exact H1|]. rewrite H2. cbn [filter]. rewrite Ec. simpl.
      now rewrite <- app_assoc.
Qed.

Lemma py_split_ws_spec s :
  Forall nonspace_word (py_split_ws s) /\
  concat (py_split_ws s) = filter (fun c => negb (py_isspace c)) s.
Proof. apply (split_ws_from_spec [] s). simpl; tauto. Qed.

Lemma filter_nonspace_word w :
  (forall c, In c w -> py_isspace c = false) -> filter (fun c => negb (py_isspace c)) w = w.
Proof.
  intros H. apply forallb_filter_id, forallb_forall. intros c Hc. now rewrite (H c Hc).
Qed.

Lemma join_filter ws :
  Forall nonspace_word ws ->
  filter (fun c => negb (py_isspace c)) (py_join_cp [32%Z] ws) = concat ws.
Proof.
  induction ws as [|w ws IH]; intros Hws; [reflexivity|].
  inversion Hws as [|? ? [_ Hw] Hws']; subst.
  destruct ws as [|w' ws].
  - simpl. rewrite app_nil_r. now apply filter_nonspace_word.
  - change (py_join_cp [32%Z] (w :: w' :: ws)) with (w ++ [32%Z] ++ py_join_cp [32%Z] (w' :: ws))%list.
    rewrite !filter_app, IH by exact Hws'. rewrite filter_nonspace_word by exact Hw. reflexivity.
Qed.

Lemma join_spaces ws c :
  Forall nonspace_word ws -> In c (py_join_cp [32%Z] ws) -> py_isspace c = true -> c = 32%Z.
Proof.
  induction ws as [|w ws IH]; intros Hws Hin Hc; [destruct Hin|].
  inversion Hws as [|? ? [_ Hw] Hws']; subst.
  destruct ws as [|w' ws].
  - simpl in Hin. rewrite (Hw c Hin) in Hc. discriminate.
  - change (py_join_cp [32%Z] (w :: w' :: ws)) with (w ++ [32%Z] ++ py_join_cp [32%Z] (w' :: ws))%list in Hin.
    apply in_app_iff in Hin as [Hin | [<- | Hin]].
    + rewrite (Hw c Hin) in Hc. discriminate.
    + reflexivity.
    + exact (IH Hws' Hin Hc).
Qed.

Lemma join_head ws l :
  Forall nonspace_word ws -> py_join_cp [32%Z] ws <> (32%Z :: l).
Proof.
  intros Hws. destruct ws as [|w ws]; [discriminate|].
  inversion Hws as [|? ? [Hne Hw] _]; subst.
  destruct w as [|x w]; [congruence|].
  assert (Hx : py_isspace x = false) by (apply Hw; now left).
  destruct ws as [|w' ws]; simpl; intros [= Ex _]; subst x; discriminate.
Qed.

Lemma join_nonnil ws : Forall nonspace_word ws -> ws <> [] -> py_join_cp [32%Z] ws <> [].
Proof.
  intros Hws Hne. destruct ws as [|w ws]; [congruence|].
  inversion Hws as [|? ? [Hw _] _]; subst.
  destruct ws as [|w' ws]; simpl; [exact Hw|].
  destruct w; [congruence | discriminate].
Qed.

Lemma join_last ws l :
  Forall nonspace_word ws -> py_join_cp [32%Z] ws <> (l ++ [32%Z])%list.
Proof.
  revert l. induction ws as [|w ws IH]; intros l Hws.
  - simpl. intros H. destruct l; discriminate.
  - inversion Hws as [|? ? [_ Hw] Hws']; subst.
    destruct ws as [|w' ws].
    + simpl. intros ->. pose proof (Hw 32%Z ltac:(apply in_app_iff; right; now left)) as H.
      vm_compute in H. discriminate.
    + change (py_join_cp [32%Z] (w :: w' :: ws)) with (w ++ [32%Z] ++ py_join_cp [32%Z] (w' :: ws))%list.
      destruct (exists_last (join_nonnil (w' :: ws) Hws' ltac:(discriminate))) as (J & y & EJ).
      rewrite EJ. intros E. rewrite !app_assoc in E. apply app_inj_tail in E as [_ ->].
      exact (IH J Hws' EJ).
Qed.

Lemma join_no_double ws l1 l2 :
  Forall nonspace_word ws -> py_join_cp [32%Z] ws <> (l1 ++ 32%Z :: 32%Z :: l2)%list.
Proof.
  revert l1. induction ws as [|w ws IH]; intros l1 Hws.
  - simpl. intros H. destruct l1; discriminate.
  - inversion Hws as [|? ? [_ Hw] Hws']; subst.
    assert (Hn : ~ In 32%Z w) by (intros Hin; pose proof (Hw 32%Z Hin) as H; vm_compute in H; discriminate).
    destruct ws as [|w' ws].
    + simpl. intros ->. apply Hn. apply in_app_iff. right. now left.
    + change (py_join_cp [32%Z] (w :: w' :: ws)) with (w ++ [32%Z] ++ py_join_cp [32%Z] (w' :: ws))%list.
      set (J := py_join_cp [32%Z] (w' :: ws)). intros E.
      apply app_eq_app in E as (l & [[Ew El] | [_ El]]).
      * destruct l as [|x [|y l]]; simpl in El.
        -- injection El as EJ. exact (join_head (w' :: ws) l2 Hws' (eq_sym EJ)).
        -- injection El as Ex _. subst x. apply Hn. rewrite Ew. apply in_app_iff. right. now left.
        -- injection El as Ex _. subst x. apply Hn. rewrite Ew. apply in_app_iff. right. now left.
      * destruct l as [|x l]; simpl in El.
        -- injection El as EJ. exact (join_head (w' :: ws) l2 Hws' EJ).
        -- injection El as Ex EJ. subst x. exact (IH l Hws' EJ).
Qed.

(** [" ".join(html.split())], the text [_summarize_html] starts from, is
    the text's non-whitespace code points in order with single spaces
    between the runs: no other whitespace, no space at either end, never
    two spaces in a row.  In particular it is empty for a text of
    whitespace only. *)
Theorem collapse_ws_normal_form (html : list Z) :
  let s := collapse_ws html in
  filter (fun c => negb (py_isspace c)) s = filter (fun c => negb (py_isspace c)) html /\
  (forall c, In c s -> py_isspace c = true -> c = 32%Z) /\
  (forall l, s <> (32%Z :: l)) /\ (forall l, s <> (l ++ [32%Z])%list) /\
  (forall l1 l2, s <> (l1 ++ 32%Z :: 32%Z :: l2)%list) /\
  (forallb py_isspace html = true -> s = []).
Proof.
  intros s. destruct (py_split_ws_spec html) as [Hw Hc]. unfold s, collapse_ws.
  split; [rewrite join_filter by exact Hw; exact Hc|].
  split; [intros c; apply join_spaces, Hw|].
  split; [intros l; apply join_head, Hw|].
  split; [intros l; apply join_last, Hw|].
  split; [intros l1 l2; apply join_no_double, Hw|].
  intros Hall. destruct (py_split_ws html) as [|w ws] eqn:E; [reflexivity|].
  exfalso. inversion Hw as [|? ? [Hne Hw1] _]; subst.
  destruct w as [|x w]; [congruence|].
  assert (Hx : In x (filter (fun c => negb (py_isspace c)) html)).
  { rewrite <- Hc. simpl. now left. }
  apply filter_In in Hx as [Hx Hx'].
  rewrite forallb_forall in Hall. rewrite (Hall x Hx) in Hx'. discriminate.
Qed.

Lemma collapse_ws_normal_form_witness :
  let html := [32; 10; 60; 98; 62; 9; 9; 72; 105; 160; 32; 33; 13; 10]%Z in
  collapse_ws html = [60; 98; 62; 32; 72; 105; 32; 33]%Z /\
  collapse_ws [32; 9; 12288]%Z = [] /\
  (forall l1 l2, collapse_ws html <> (l1 ++ 32%Z :: 32%Z :: l2)%list).
Proof.
  intros html. split; [reflexivity|]. split.
  - exact (proj2 (proj2 (proj2 (proj2 (proj2 (collapse_ws_normal_form [32; 9; 12288]%Z))))) eq_refl).
  - exact (proj1 (proj2 (proj2 (proj2 (proj2 (collapse_ws_normal_form html)))))).
Defined.

(** The length of [_summarize_html html limit]: the collapsed text itself
    when it has at most [limit] code points; otherwise (for [limit >= 1])
    its first [limit - 1] code points followed by the three code points of
    ["â€¦"], [limit + 2] in all.  Whenever it cuts, the excerpt is longer
    than [limit]. *)
Theorem summarize_html_length (html : list Z) (limit : Z) :
  let collapsed := collapse_ws html in
  ((Z.of_nat (length collapsed) <= limit)%Z -> _summarize_html html limit = collapsed) /\
  ((limit < Z.of_nat (length collapsed))%Z ->
     (limit < Z.of_nat (length (_summarize_html html limit)))%Z) /\
  ((1 <= limit)%Z -> (limit < Z.of_nat (length collapsed))%Z ->
     _summarize_html html limit =
       (firstn (Z.to_nat (limit - 1)) collapsed ++ excerpt_suffix)%list /\
     Z.of_nat (length (_summarize_html html limit)) = (limit + 2)%Z).
Proof.
  intros collapsed. unfold _summarize_html. fold collapsed.
  split; [intros H; destruct (Z.leb_spec (Z.of_nat (length collapsed)) limit); [reflexivity | lia]|].
  split.
  - intros H. destruct (Z.leb_spec (Z.of_nat (length collapsed)) limit); [lia|].
    unfold py_slice_to. rewrite length_app. simpl (length excerpt_suffix).
    destruct (Z.leb_spec 0 (limit - 1)); rewrite length_firstn; lia.
  - intros H1 H2. destruct (Z.leb_spec (Z.of_nat (length collapsed)) limit); [lia|].
    unfold py_slice_to. destruct (Z.leb_spec 0 (limit - 1)); [|lia].
    split; [reflexivity|]. rewrite length_app, length_firstn. simpl (length excerpt_suffix). lia.
Qed.

Lemma summarize_html_length_witness :
  let html := [32; 65; 66; 32; 32; 67; 68; 69]%Z in
  _summarize_html html 10 = [65; 66; 32; 67; 68; 69]%Z /\
  _summarize_html html 4 = [65; 66; 32; 226; 8364; 166]%Z /\
  Z.of_nat (length (_summarize_html html 4)) = 6%Z.
Proof.
  intros html. split; [apply (proj1 (summarize_html_length html 10)); vm_compute; discriminate|].
  destruct (proj2 (proj2 (summarize_html_length html 4))) as [E L];
    [vm_compute; discriminate | reflexivity |].
  split; [rewrite E; reflexivity | exact L].
Defined.

(** *** The related queries *)

Lemma related_loop_spec m cands seen ded all :
  (forall x, In x seen <-> In x (map py_lower ded)) ->
  NoDup (map py_lower ded) ->
  (forall e, In e ded -> e <> "" /\ In e (map py_strip all)) ->
  incl cands all ->
  ((Z.of_nat (length ded) < m)%Z \/ ded = []) ->
  let out := related_loop m cands seen ded in
  (length out <= Z.to_nat (Z.max 1 m))%nat /\ NoDup (map py_lower out) /\
  (forall e, In e out -> e <> "" /\ In e (map py_strip all)) /\ incl ded out /\
  ((Z.of_nat (length out) < m)%Z -> forall cand, In cand cands -> py_strip cand <> "" ->
     In (py_lower (py_strip cand)) (map py_lower out)).
Proof.
  revert seen ded. induction cands as [|cand rest IH]; intros seen ded Hseen Hnd Hel Hinc Hlen out.
  - unfold out. simpl. split; [destruct Hlen as [H | ->]; simpl; lia|].
    split; [exact Hnd|]. split; [exact Hel|]. split; [intros x Hx; exact Hx|]. intros _ c [].
  - unfold out. cbn [related_loop].
    assert (Hinc' : incl rest all) by (intros x Hx; apply Hinc; now right).
    destruct (String.eqb_spec (py_strip cand) "") as [Eb | Eb].
    + destruct (IH seen ded Hseen Hnd Hel Hinc' Hlen) as (H1 & H2 & H3 & H4 & H5).
      repeat (split; [assumption|]). intros Hl c [<- | Hc] Hs; [congruence|]. exact (H5 Hl c Hc Hs).
    + destruct (existsb (String.eqb (py_lower (py_strip cand))) seen) eqn:Es.
      * destruct (IH seen ded Hseen Hnd Hel Hinc' Hlen) as (H1 & H2 & H3 & H4 & H5).
        repeat (split; [assumption|]). intros Hl c [<- | Hc] Hs; [|exact (H5 Hl c Hc Hs)].
        apply existsb_exists in Es as (x & Hx & Ex). apply String.eqb_eq in Ex. subst x.
        apply Hseen in Hx. apply in_map_iff in Hx as (e & Ee & He).
        rewrite <- Ee. apply in_map, H4, He.
      * apply existsb_eqb_false in Es.
        assert (Hnd' : NoDup (map py_lower (ded ++ [py_strip cand]))).
        { rewrite map_app. apply NoDup_app; [exact Hnd | repeat constructor; simpl; tauto |].
          intros x Hx [<- | []]. apply Es, Hseen, Hx. }
        assert (Hel' : forall e, In e (ded ++ [py_strip cand]) -> e <> "" /\ In e (map py_strip all)).
        { intros e He. apply in_app_iff in He as [He | [<- | []]]; [exact (Hel e He)|].
          split; [exact Eb|]. apply in_map, Hinc. now left. }
        destruct (Z.leb_spec m (Z.of_nat (length (ded ++ [py_strip cand])))) as [Hm | Hm].
        -- rewrite length_app in *. simpl length in *.
           split; [destruct Hlen as [H | ->]; simpl in *; lia|].
           split; [exact Hnd'|]. split; [exact Hel'|].
           split; [intros x Hx; apply in_app_iff; now left|]. intros Hl. lia.
        -- destruct (IH (py_lower (py_strip cand) :: seen) (ded ++ [py_strip cand])%list)
             as (H1 & H2 & H3 & H4 & H5); [| exact Hnd' | exact Hel' | exact Hinc' | left; exact Hm |].
           { intros x. rewrite map_app, in_app_iff. simpl. rewrite Hseen. tauto. }
           split; [exact H1|]. split; [exact H2|]. split; [exact H3|].
           split; [intros x Hx; apply H4, in_app_iff; now left|].
           intros Hl c [<- | Hc] Hs; [|exact (H5 Hl c Hc Hs)].
           apply in_map, H4, in_app_iff. right. now left.
Qed.

(** The related queries [duckduckgo_search] keeps from the page: at most
    [max(1, related_count or 10)] of them (a [related_count] below 1
    other than 0 still keeps one); no two equal up to case; each one a
    candidate with the surrounding whitespace stripped, never empty; and
    unless the cap was reached, every non-blank candidate is kept up to
    case. *)
Theorem dedup_related_spec (raw_related : list string) (related_count_value : option Z) :
  let out := dedup_related raw_related related_count_value in
  let m := max_related_of related_count_value in
  (length out <= Z.to_nat (Z.max 1 m))%nat /\
  NoDup (map py_lower out) /\
  (forall e, In e out -> e <> "" /\ In e (map py_strip raw_related)) /\
  ((Z.of_nat (length out) < m)%Z ->
     forall cand, In cand raw_related -> py_strip cand <> "" ->
       In (py_lower (py_strip cand)) (map py_lower out)).
Proof.
  intros out m.
  destruct (related_loop_spec m raw_related [] [] raw_related) as (H1 & H2 & H3 & _ & H5).
  - simpl. tauto.
  - constructor.
  - simpl. tauto.
  - intros x Hx. exact Hx.
  - now right.
  - split; [exact H1|]. split; [exact H2|]. split; [exact H3 | exact H5].
Qed.

Lemma dedup_related_spec_witness :
  let raw := [" Rust book "; "rust BOOK"; ""; "   "; "Cargo"] in
  dedup_related raw None = ["Rust book"; "Cargo"] /\
  (length (dedup_related raw (Some (-3)%Z)) <= 1)%nat /\
  (forall cand, In cand raw -> py_strip cand <> "" ->
     In (py_lower (py_strip cand)) (map py_lower (dedup_related raw None))).
Proof.
  intros raw. split; [reflexivity|]. split.
  - exact (proj1 (dedup_related_spec raw (Some (-3)%Z))).
  - apply (proj2 (proj2 (proj2 (dedup_related_spec raw None)))). vm_compute. reflexivity.
Defined.

(** *** Repeated searches *)

(** A search that went to the network stores its payload; the same
    request repeated while that entry is fresh ([now1' - now3] within the
    intent's TTL, [now3] the clock of the first [set]) is answered from the
    cache: no fetch, the cache unchanged, and the stored payload returned
    with status ["hit"] and age [round(now2' - now3, 2)]. *)
Theorem repeated_search_hits_cache (c : SemanticCache Payload) (a : KeyArgs)
    (now1 now2 now3 now1' now2' now3' : Q) (fetch fetch' : FetchOutcome) (p : Payload) :
  (0 < sc_max_entries c)%Z ->
  let r1 := duckduckgo_search_cached c a now1 now2 now3 fetch in
  run_fetched r1 = true -> run_outcome r1 = Returned p ->
  Qle_bool (now1' - now3) (inject_Z (_intent_ttl (ka_intent a))) = true ->
  let r2 := duckduckgo_search_cached (run_cache r1) a now1' now2' now3' fetch' in
  run_fetched r2 = false /\ run_cache r2 = run_cache r1 /\
  run_outcome r2 =
    Returned {| p_results := p_results p; p_total_results := p_total_results p;
                p_intent := ka_intent a; p_related_searches := p_related_searches p;
                p_cache_metadata :=
                  Some {| cm_status := "hit"; cm_age_seconds := round2 (now2' - now3) |} |}.
Proof.
  intros Hpos r1 Hf Hp Hfresh r2.
  assert (Hset : exists c1, (0 < sc_max_entries c1)%Z /\
            set c1 (make_key a) (ka_intent a) (ka_embedding_signature a) p now3
            = Some (run_cache r1)).
  { unfold r1, duckduckgo_search_cached in Hf, Hp |- *.
    pose proof (get_max_entries c (make_key a) (ka_intent a) now1 now2) as Hm.
    destruct (get c (make_key a) (ka_intent a) now1 now2) as [lk c1].
    simpl in Hm. rewrite <- Hm in Hpos.
    assert (Hgen : forall cached,
              run_outcome (fetch_and_store c1 (make_key a) (ka_intent a) (ka_embedding_signature a)
                             (ka_related a) cached now3 fetch) = Returned p ->
              set c1 (make_key a) (ka_intent a) (ka_embedding_signature a) p now3
              = Some (run_cache (fetch_and_store c1 (make_key a) (ka_intent a)
                                   (ka_embedding_signature a) (ka_related a) cached now3 fetch))).
    { intros cached Hr.
      destruct (fetch_and_store_spec c1 (make_key a) (ka_intent a) (ka_embedding_signature a)
                  (ka_related a) cached now3 fetch Hpos) as [_ Hs].
      destruct fetch as [fresh total rel | msg].
      - destruct Hs as (p' & Ho & Hs' & _). rewrite Ho in Hr. injection Hr as ->. exact Hs'.
      - destruct Hs as [Ho _]. rewrite Ho in Hr. discriminate. }
    exists c1. split; [exact Hpos|].
    destruct lk as [l|]; [destruct (cl_fresh l); [discriminate Hf|]|]; apply Hgen, Hp. }
  destruct Hset as (c1 & Hpos1 & Hset).
  unfold r2, duckduckgo_search_cached.
  rewrite (get_after_set c1 (run_cache r1) (make_key a) (ka_intent a) (ka_embedding_signature a)
             p now3 (ka_intent a) now1' now2' Hpos1 Hset).
  cbn [cl_fresh cl_payload cl_age_seconds]. rewrite Hfresh.
  split; [reflexivity|]. split; reflexivity.
Qed.

Lemma repeated_search_hits_cache_witness :
  let a := {| ka_intent := News; ka_embedding_signature := "e3b0"; ka_count := 10%Z;
              ka_offset := 0%Z; ka_page := 1%Z; ka_site := None; ka_time_period := None;
              ka_related := false; ka_related_count := None |} in
  let r := {| sr_url := "https://a.example"; sr_title := "A"; sr_snippet := "" |} in
  let p := {| p_results := [r]; p_total_results := 1%Z; p_intent := News;
              p_related_searches := None;
              p_cache_metadata := Some {| cm_status := "miss"; cm_age_seconds := 0 |} |} in
  let r1 := duckduckgo_search_cached (new_cache 4) a 0%Q 0%Q 0%Q (Fetched [r] 1%Z []) in
  run_fetched r1 = true /\ run_outcome r1 = Returned p /\
  run_outcome (duckduckgo_search_cached (run_cache r1) a 900%Q 900%Q 900%Q (FetchFailed "offline"))
  = Returned {| p_results := [r]; p_total_results := 1%Z; p_intent := News;
                p_related_searches := None;
                p_cache_metadata := Some {| cm_status := "hit"; cm_age_seconds := round2 (900%Q - 0%Q) |} |}.
Proof.
  intros a r p r1. split; [reflexivity|]. split; [reflexivity|].
  refine (proj2 (proj2 (repeated_search_hits_cache (new_cache 4) a 0%Q 0%Q 0%Q 900%Q 900%Q 900%Q
                          (Fetched [r] 1%Z []) (FetchFailed "offline") p _ _ _ _))); reflexivity.
Defined.

End SearchExtras.

(* ================================================================== *)
(** ** Further properties of [orchestration/flow.py] *)

Module FlowExtras.
Import Flow FlowPlan FlowExec.

Lemma topo_loop_error fuel P R ord e : topo_loop fuel P R ord = Err e -> e = cycle_error.
Proof.
  revert P R ord. induction fuel as [|f IH]; intros P R ord; destruct P as [|h P'];
    cbn [topo_loop]; try discriminate; [intros [= <-]; reflexivity|].
  destruct (scan_pass R (h :: P')) as [[app R'] rem].
  destruct app as [|a app']; [intros [= <-]; reflexivity | apply IH].
Qed.

Lemma find_app {A} (f : A -> bool) l1 x l2 :
  (forall y, In y l1 -> f y = false) -> f x = true -> find f (l1 ++ x :: l2) = Some x.
Proof.
  induction l1 as [|y l1 IH]; intros H Hx; simpl; [now rewrite Hx|].
  rewrite (H y (or_introl eq_refl)). apply IH; [intros z Hz; apply H; now right | exact Hx].
Qed.

Lemma find_none {A} (f : A -> bool) l : (forall y, In y l -> f y = false) -> find f l = None.
Proof.
  induction l as [|y l IH]; intros H; simpl; [reflexivity|].
  rewrite (H y (or_introl eq_refl)). apply IH. intros z Hz. apply H. now right.
Qed.

Lemma names_unique_true hops :
  NoDup (map hop_name hops) ->
  Nat.eqb (length (nodup string_dec (map hop_name hops))) (length hops) = true.
Proof.
  intros H. apply Nat.eqb_eq. rewrite (proj2 (nodup_length_iff _) H). apply length_map.
Qed.

Lemma names_unique_false hops :
  ~ NoDup (map hop_name hops) ->
  Nat.eqb (length (nodup string_dec (map hop_name hops))) (length hops) = false.
Proof.
  intros H. apply Nat.eqb_neq. intros E. apply H, nodup_length_iff. now rewrite length_map.
Qed.

Lemma deps_known_find hops :
  (forall h d, In h hops -> In d (hop_depends_on h) -> In d (map hop_name hops)) ->
  find (fun hop => negb (subset (hop_depends_on hop) (map hop_name hops))) hops = None.
Proof.
  intros H. apply find_none. intros y Hy. apply negb_false_iff, subset_spec.
  intros d Hd. exact (H y d Hy Hd).
Qed.

(** A pass over hops already in dependency order takes them all. *)
Lemma scan_pass_topo R hops :
  topo_ok R hops = true ->
  scan_pass R hops = (hops, (rev (map hop_name hops) ++ R)%list, []).
Proof.
  revert R. induction hops as [|h hs IH]; intros R H; [reflexivity|].
  cbn [topo_ok] in H. apply andb_true_iff in H as [H1 H2].
  cbn [scan_pass]. rewrite H1, (IH _ H2). simpl. now rewrite <- app_assoc.
Qed.

Lemma topo_ok_deps R hops :
  topo_ok R hops = true ->
  forall h d, In h hops -> In d (hop_depends_on h) -> In d R \/ In d (map hop_name hops).
Proof.
  revert R. induction hops as [|h0 hs IH]; intros R H h d Hh Hd; [destruct Hh|].
  cbn [topo_ok] in H. apply andb_true_iff in H as [H1 H2].
  destruct Hh as [<- | Hh].
  - left. exact (proj1 (subset_spec _ _) H1 d Hd).
  - destruct (IH _ H2 h d Hh Hd) as [[<- | HR] | Hn].
    + right. now left.
    + now left.
    + right. now right.
Qed.

(** The loop of [execute] runs to the end when every hop's tool is
    registered and no operation raises. *)
Lemma exec_hops_total tools ctx st hs R T w :
  (forall h, In h hs -> exists t, od_get (hop_tool h) tools = Some t /\
     forall params cur, exists o cur', tool_call t params cur = (Ok o, cur')) ->
  topo_ok (od_keys R) hs = true ->
  exists res w', exec_hops tools ctx st hs R T w = (Ok res, w').
Proof.
  revert R T w. induction hs as [|h hs IH]; intros R T w Ht Ho; [eexists; eexists; reflexivity|].
  cbn [topo_ok] in Ho. apply andb_true_iff in Ho as [Hsub Ho].
  destruct (Ht h (or_introl eq_refl)) as (t & Et & Hcall).
  cbn [exec_hops]. unfold bind at 1, _resolve_tool. rewrite Et. unfold ret at 1.
  destruct (dependency_outputs_spec R (hop_depends_on h) [] (proj1 (subset_spec _ _) Hsub))
    as (D & ED & _).
  unfold bind at 1. rewrite ED. unfold lift, ret at 1. unfold bind at 1, invoke.
  match goal with |- context [tool_call t ?pa ?cu] =>
    destruct (Hcall pa cu) as (o & cur' & Ec); rewrite Ec end.
  cbv beta iota zeta.
  apply IH.
  - intros h' Hh'. apply Ht. now right.
  - apply (topo_ok_incl (hop_name h :: od_keys R)); [|exact Ho].
    intros x Hx. apply In_od_keys_setitem. destruct Hx as [<- | Hx]; [now right | now left].
Qed.

Lemma plan_init_unfold hops : hops <> [] -> MultiHopPlan_init hops =
    if negb (Nat.eqb (length (nodup string_dec (map hop_name hops))) (length hops))
    then Err (ValueError "Hop names must be unique")
    else match find (fun hop => negb (subset (hop_depends_on hop) (map hop_name hops))) hops with
         | Some hop => Err (ValueError ("Hop '" ++ hop_name hop ++ "' depends on unknown hops"))
         | None => match _topological_sort hops with
                   | Ok ordered => Ok {| plan_hops := hops; plan_ordered := ordered |}
                   | Err e => Err e
                   end
         end.
Proof. destruct hops as [|h0 hs]; intros Hne; [congruence | reflexivity]. Qed.

(** Which error [MultiHopPlan(hops)] raises when several apply: duplicate
    names are reported before unknown dependencies; an unknown dependency
    is reported for the first hop, in declaration order, that has one; and
    with unique names and known dependencies the only possible error is
    the cycle error. *)
Theorem plan_init_error_precedence (hops : list Hop) :
  (hops <> [] -> ~ NoDup (map hop_name hops) ->
     MultiHopPlan_init hops = Err (ValueError "Hop names must be unique")) /\
  (forall pre h post, hops = (pre ++ h :: post)%list -> NoDup (map hop_name hops) ->
     (forall h' d, In h' pre -> In d (hop_depends_on h') -> In d (map hop_name hops)) ->
     (exists d, In d (hop_depends_on h) /\ ~ In d (map hop_name hops)) ->
     MultiHopPlan_init hops =
       Err (ValueError ("Hop '" ++ hop_name h ++ "' depends on unknown hops"))) /\
  (forall e, hops <> [] -> NoDup (map hop_name hops) ->
     (forall h d, In h hops -> In d (hop_depends_on h) -> In d (map hop_name hops)) ->
     MultiHopPlan_init hops = Err e ->
     e = ValueError "Cycle detected in hop dependencies").
Proof.
  split; [|split].
  - intros Hne Hnd. rewrite (plan_init_unfold hops Hne), names_unique_false by exact Hnd. reflexivity.
  - intros pre h post Hh Hnd Hpre (d & Hd & Hn).
    assert (Hne : hops <> []) by (rewrite Hh; destruct pre; discriminate).
    rewrite (plan_init_unfold hops Hne), names_unique_true by exact Hnd.
    simpl negb. cbv iota. remember (map hop_name hops) as names eqn:En.
    rewrite Hh. rewrite find_app; [reflexivity | |].
    + intros y Hy. apply negb_false_iff, subset_spec. intros x Hx. exact (Hpre y x Hy Hx).
    + apply negb_true_iff. destruct (subset (hop_depends_on h) names) eqn:E;
        [|reflexivity].
      exfalso. exact (Hn (proj1 (subset_spec _ _) E d Hd)).
  - intros e Hne Hnd Hdeps. rewrite (plan_init_unfold hops Hne), names_unique_true by exact Hnd.
    simpl negb. cbv iota. rewrite deps_known_find by exact Hdeps.
    unfold _topological_sort.
    destruct (topo_loop _ _ _ _) as [o|e'] eqn:E; [discriminate|].
    intros [= <-]. exact (topo_loop_error _ _ _ _ _ E).
Qed.

(** A plan whose hops are declared in dependency order (each after the
    hops it depends on) is built, and runs in declaration order. *)
Theorem plan_keeps_dependency_ordered_declaration (hops : list Hop) :
  hops <> [] -> NoDup (map hop_name hops) -> topo_ok [] hops = true ->
  exists p, MultiHopPlan_init hops = Ok p /\ ordered_hops p = hops.
Proof.
  intros Hne Hnd Ht. destruct hops as [|h0 hs] eqn:Eh; [congruence|].
  rewrite <- Eh in *. clear h0 hs Eh.
  assert (Hdeps : forall h d, In h hops -> In d (hop_depends_on h) -> In d (map hop_name hops)).
  { intros h d Hh Hd. destruct (topo_ok_deps [] hops Ht h d Hh Hd) as [[] | H]; exact H. }
  assert (Hsort : _topological_sort hops = Ok hops).
  { unfold _topological_sort. destruct hops as [|h hs]; [congruence|].
    cbn [topo_loop]. rewrite (scan_pass_topo [] (h :: hs) Ht). reflexivity. }
  exists {| plan_hops := hops; plan_ordered := hops |}. split; [|reflexivity].
  rewrite (plan_init_unfold hops Hne), names_unique_true by exact Hnd. simpl negb. cbv iota.
  rewrite deps_known_find by exact Hdeps. now rewrite Hsort.
Qed.

(** When every hop's tool is registered and no operation raises, running
    a constructed plan succeeds: [execute] returns a result whose trace
    lists every hop in plan order, and each hop was invoked once, in that
    order. *)
Theorem execute_succeeds_when_operations_return (tools : @OD ToolCallable) (hops : list Hop)
    (p : MultiHopPlan) (ctx : Val) (shared_state : option nat) (w : World) :
  MultiHopPlan_init hops = Ok p ->
  (forall h, In h hops -> exists t, od_get (hop_tool h) tools = Some t /\
     forall params cur, exists o cur', tool_call t params cur = (Ok o, cur')) ->
  exists res w', execute tools p ctx shared_state w = (Ok res, w') /\
    or_trace res = map trace_of (ordered_hops p) /\
    exists new, w_calls w' = (w_calls w ++ new)%list /\ map call_hop new = ordered_hops p.
Proof.
  intros Hp Ht.
  destruct (plan_ordered_ok _ _ Hp) as (Hperm & Hto & _).
  destruct (execute_plan_run hops p tools ctx shared_state w Hp) as (st & w1 & _ & Ee & Hr).
  destruct (exec_hops_total tools ctx st (ordered_hops p) [] [] w1) as (res & w' & Ex).
  - intros h Hh. apply Ht. exact (Permutation_in _ Hperm Hh).
  - exact Hto.
  - rewrite Ex in Hr. destruct Hr as (new & outs & H1 & H2 & _ & _ & ->).
    exists {| or_results := record_results [] (ordered_hops p) outs;
              or_trace := map trace_of (ordered_hops p) |}, w'.
    split; [rewrite Ee; exact Ex|]. split; [reflexivity|]. exists new. split; assumption.
Qed.

Lemma plan_init_error_precedence_witness :
  let a := {| hop_name := "search"; hop_tool := "search"; hop_params := []; hop_depends_on := [] |} in
  let c := {| hop_name := "summary"; hop_tool := "summary"; hop_params := [];
              hop_depends_on := ["details"; "ghost"] |} in
  let x := {| hop_name := "x"; hop_tool := "t"; hop_params := []; hop_depends_on := ["y"] |} in
  let y := {| hop_name := "y"; hop_tool := "t"; hop_params := []; hop_depends_on := ["x"] |} in
  MultiHopPlan_init [a; c; a] = Err (ValueError "Hop names must be unique") /\
  MultiHopPlan_init [a; c] = Err (ValueError "Hop 'summary' depends on unknown hops") /\
  (exists e, MultiHopPlan_init [x; y] = Err e /\
     e = ValueError "Cycle detected in hop dependencies").
Proof.
  intros a c x y. split; [|split].
  - apply (proj1 (plan_init_error_precedence [a; c; a])); [discriminate|].
    intros H. inversion H as [|? ? Hn _]. apply Hn. simpl. right. now left.
  - apply (proj1 (proj2 (plan_init_error_precedence [a; c])) [a] c []); [reflexivity | | |].
    + repeat constructor; simpl; intuition discriminate.
    + intros h' d [<- | []] [].
    + exists "details". split; [simpl; now left | simpl; intuition discriminate].
  - exists cycle_error. split; [reflexivity|].
    apply (proj2 (proj2 (plan_init_error_precedence [x; y]))); [discriminate | | | reflexivity].
    + repeat constructor; simpl; intuition discriminate.
    + intros h d [<- | [<- | []]] [<- | []]; simpl; auto.
Defined.

Lemma plan_keeps_dependency_ordered_declaration_witness :
  let a := {| hop_name := "search"; hop_tool := "search"; hop_params := []; hop_depends_on := [] |} in
  let b := {| hop_name := "details"; hop_tool := "detail"; hop_params := [];
              hop_depends_on := ["search"] |} in
  let c := {| hop_name := "summary"; hop_tool := "summary"; hop_params := [];
              hop_depends_on := ["search"; "details"] |} in
  topo_ok [] [a; b; c] = true /\
  exists p, MultiHopPlan_init [a; b; c] = Ok p /\ ordered_hops p = [a; b; c].
Proof.
  intros a b c. split; [reflexivity|].
  apply plan_keeps_dependency_ordered_declaration; [discriminate | | reflexivity].
  repeat constructor; simpl; intuition discriminate.
Defined.

Lemma execute_succeeds_when_operations_return_witness :
  let a := {| hop_name := "search"; hop_tool := "search"; hop_params := []; hop_depends_on := [] |} in
  let b := {| hop_name := "details"; hop_tool := "detail"; hop_params := [];
              hop_depends_on := ["search"] |} in
  let echo := {| tool_signature := ["dependencies"; "state"];
                 tool_call := fun params cur => (Ok (VDict params), cur) |} in
  let tools := [("search", echo); ("detail", echo)] in
  let p := {| plan_hops := [a; b]; plan_ordered := [a; b] |} in
  let w := {| w_heap := []; w_calls := [] |} in
  MultiHopPlan_init [a; b] = Ok p /\
  exists res w', execute tools p VNone None w = (Ok res, w') /\
    or_trace res = map trace_of (ordered_hops p) /\
    exists new, w_calls w' = (w_calls w ++ new)%list /\ map call_hop new = ordered_hops p.
Proof.
  intros a b echo tools p w. split; [reflexivity|].
  apply (execute_succeeds_when_operations_return tools [a; b]); [reflexivity|].
  intros h [<- | [<- | []]]; (eexists; split; [reflexivity|]);
    intros params cur; eexists; eexists; reflexivity.
Defined.

End FlowExtras.
